(** * Starlette request-processing core

    A shallow embedding of the multi-valued containers of
    [starlette/datastructures.py], of the gzip responder of
    [starlette/middleware/gzip.py], of the error boundary of
    [starlette/middleware/errors.py] and of the pipeline composer of
    [applications.py], with the properties the specification states
    about them.

    Python objects that are mutated in place are modelled by explicit
    state passing; operations that can raise return a sum whose left
    side is the exception. *)

From Stdlib Require Import ZArith List Strings.String Strings.Ascii Strings.Byte Lia Bool DecimalString.
From stdpp Require Import base decidable option list sorting gmap lexico.
Import ListNotations.

Local Open Scope string_scope.
Local Open Scope list_scope.

(** ** Python values shared by all modules *)

Module Py.

(** Exceptions the modelled code can raise. *)
Inductive Exc : Type :=
  | KeyError
  | IndexError
  | AssertionError (msg : string)
  | ValueError.

(** The result of a call that either raises or returns. *)
Definition result (A : Type) : Type := Exc + A.

Definition ret {A} (a : A) : result A := inr a.
Definition raise {A} (e : Exc) : result A := inl e.
Definition bind {A B} (m : result A) (f : A -> result B) : result B :=
  match m with
  | inl e => inl e
  | inr a => f a
  end.

(** [bytes] objects. *)
Abbreviation bytes := (list byte).

Global Instance byte_eq_dec : EqDecision byte := Byte.byte_eq_dec.
Global Instance string_eq_dec : EqDecision string := String.string_dec.

(** A raw header line: (name, value), both [bytes]. *)
Abbreviation raw_header := (list byte * list byte)%type.

(** [str] objects whose code points are below 256: the strings that
    [encode("latin-1")] accepts.  One [ascii] is one code point. *)
Abbreviation str := string.

(** [str.lower()] on one code point of the Latin-1 range: A-Z and
    the accented capitals U+00C0..U+00DE, except the multiplication
    sign U+00D7, move up by 32. *)
Definition lower_char (c : ascii) : ascii :=
  let n := nat_of_ascii c in
  if (65 <=? n)%nat && (n <=? 90)%nat then ascii_of_nat (n + 32)
  else if (192 <=? n)%nat && (n <=? 222)%nat && negb (n =? 215)%nat
       then ascii_of_nat (n + 32)
  else c.

Fixpoint lower (s : str) : str :=
  match s with
  | EmptyString => EmptyString
  | String c s' => String (lower_char c) (lower s')
  end.

(** [s.encode("latin-1")] and [b.decode("latin-1")]: one byte per
    code point. *)
Definition encode_latin1 (s : str) : bytes := list_byte_of_string s.
Definition decode_latin1 (b : bytes) : str := string_of_list_byte b.

(** [str(n)] for a non-negative integer. *)
Definition str_of_nat (n : nat) : str := NilZero.string_of_uint (Nat.to_uint n).

(** [sep.join([a, b])]. *)
Definition join2 (sep a b : str) : str := (a ++ sep ++ b)%string.

(** [enumerate(l)], counting from [i]. *)
Fixpoint enumerate_from {A} (i : nat) (l : list A) : list (nat * A) :=
  match l with
  | [] => []
  | x :: l' => (i, x) :: enumerate_from (S i) l'
  end.
Definition enumerate {A} (l : list A) : list (nat * A) := enumerate_from 0 l.

(** [del l[idx]]: raises IndexError out of range. *)
Definition list_del {A} (l : list A) (idx : nat) : result (list A) :=
  if decide (idx < length l)%nat then ret (delete idx l) else raise IndexError.

(** [l[idx] = x]: raises IndexError out of range. *)
Definition list_setitem {A} (l : list A) (idx : nat) (x : A) : result (list A) :=
  if decide (idx < length l)%nat then ret (<[idx := x]> l) else raise IndexError.

(** [s] between double quotes, as it stands inside a message. *)
Definition quoted (s : str) : str :=
  String "034"%char (s ++ String "034"%char EmptyString)%string.

(** [needle in haystack] on [str]. *)
Fixpoint str_contains (needle haystack : str) : bool :=
  if String.prefix needle haystack then true
  else match haystack with
       | EmptyString => false
       | String _ rest => str_contains needle rest
       end.

End Py.

Notation "'let!' x ':=' m 'in' f" := (Py.bind m (fun x => f))
  (at level 10, x name, m at level 100, f at level 200, only parsing).

(** ** starlette/types.py *)

Module Types.
Import Py.

(** A [Message] is a [dict]; these are the keys the modelled code
    reads or writes, each one present or not.  [H] is what the
    ["headers"] key holds: the list itself, or a reference to a list
    object where the list is shared and mutated in place. *)
Record Message (H : Type) : Type := mkMessage {
  msg_type : option str;
  msg_status : option Z;
  msg_headers : option H;
  msg_body : option bytes;
  msg_more_body : option bool
}.
Global Arguments mkMessage {H}.
Global Arguments msg_type {H}.
Global Arguments msg_status {H}.
Global Arguments msg_headers {H}.
Global Arguments msg_body {H}.
Global Arguments msg_more_body {H}.

(** The connection scope, as far as the modelled code reads it: its
    ["type"] and its ["headers"]. *)
Record Scope : Type := mkScope {
  scope_type : str;
  scope_headers : list raw_header
}.

(** The empty [dict] [{}]. *)
Definition empty_message {H} : Message H := mkMessage None None None None None.

(** [message["body"] = body]. *)
Definition set_body {H} (m : Message H) (body : bytes) : Message H :=
  mkMessage (msg_type m) (msg_status m) (msg_headers m) (Some body) (msg_more_body m).

End Types.

(** ** starlette/datastructures.py: header collections *)

Module Headers.
Import Py Types.

(** A [Headers] object holds the list [_list]. *)
Record t : Type := mk { _list : list raw_header }.

(** [Headers.__init__(headers=None, raw=None, scope=None)]. *)
Definition __init__ (headers : option (list (str * str)))
    (raw : option (list raw_header)) (scope : option Scope) : result t :=
  match headers with
  | Some items =>
      match raw with
      | Some _ => raise (AssertionError ("Cannot set both " ++ quoted "headers"
                                         ++ " and " ++ quoted "raw" ++ ".")%string)
      | None =>
          match scope with
          | Some _ => raise (AssertionError ("Cannot set both " ++ quoted "headers"
                                             ++ " and " ++ quoted "scope" ++ ".")%string)
          | None =>
              ret (mk (map (fun kv => (encode_latin1 (lower (fst kv)),
                                       encode_latin1 (snd kv))) items))
          end
      end
  | None =>
      match raw with
      | Some l =>
          match scope with
          | Some _ => raise (AssertionError ("Cannot set both " ++ quoted "raw" ++ " and "
                                             ++ quoted "scope" ++ ".")%string)
          | None => ret (mk l)
          end
      | None =>
          match scope with
          | Some sc => ret (mk (scope_headers sc))
          | None => ret (mk [])
          end
      end
  end.

(** The loop shared by [__getitem__] and [__contains__]: the value of
    the first line whose name is [get_header_key]. *)
Fixpoint find_first (get_header_key : bytes) (l : list raw_header) : option bytes :=
  match l with
  | [] => None
  | (header_key, header_value) :: rest =>
      if decide (header_key = get_header_key) then Some header_value
      else find_first get_header_key rest
  end.

Definition __getitem__ (self : t) (key : str) : result str :=
  let get_header_key := encode_latin1 (lower key) in
  match find_first get_header_key (_list self) with
  | Some header_value => ret (decode_latin1 header_value)
  | None => raise KeyError
  end.

Definition __contains__ (self : t) (key : str) : bool :=
  let get_header_key := encode_latin1 (lower key) in
  match find_first get_header_key (_list self) with
  | Some _ => true
  | None => false
  end.

(** [get(key, default)]: [None] stands for Python's [None].  The only
    exception [__getitem__] raises is the KeyError caught here. *)
Definition get (self : t) (key : str) (default : option str) : option str :=
  match __getitem__ self key with
  | inr v => Some v
  | inl _ => default
  end.

Definition getlist (self : t) (key : str) : list str :=
  let get_header_key := encode_latin1 (lower key) in
  map (fun kv => decode_latin1 (snd kv))
      (filter (fun kv => fst kv = get_header_key) (_list self)).

Definition raw (self : t) : list raw_header := _list self.

Definition __len__ (self : t) : nat := length (_list self).

(** How many of the constructor's sources are given: 0 or 1 for one. *)
Definition given {A} (source : option A) : nat :=
  match source with
  | Some _ => 1
  | None => 0
  end.

(** [keys()], [values()] and [items()]: the lines decoded, in order. *)
Definition keys (self : t) : list str :=
  map (fun kv => decode_latin1 (fst kv)) (_list self).

Definition values (self : t) : list str :=
  map (fun kv => decode_latin1 (snd kv)) (_list self).

Definition items (self : t) : list (str * str) :=
  map (fun kv => (decode_latin1 (fst kv), decode_latin1 (snd kv))) (_list self).

End Headers.

(** ** starlette/datastructures.py: mutable header collections

    A method that mutates [self._list] in place returns the object it
    leaves behind. *)

Module MutableHeaders.
Import Py.
Export Headers.

(** The indexes collected by
    [for idx, (item_key, item_value) in enumerate(self._list)]. *)
Definition matching_indexes (key : bytes) (l : list (nat * raw_header)) : list nat :=
  map fst (filter (fun ix => fst (snd ix) = key) l).

(** [for idx in idxs: del self._list[idx]]. *)
Fixpoint del_each (idxs : list nat) (l : list raw_header) : result (list raw_header) :=
  match idxs with
  | [] => ret l
  | idx :: rest => let! l' := list_del l idx in del_each rest l'
  end.

Definition __setitem__ (self : t) (key value : str) : result t :=
  let set_key := encode_latin1 (lower key) in
  let set_value := encode_latin1 value in
  let found_indexes := matching_indexes set_key (enumerate (_list self)) in
  let! l1 := del_each (rev (tail found_indexes)) (_list self) in
  match found_indexes with
  | idx :: _ =>
      let! l2 := list_setitem l1 idx (set_key, set_value) in
      ret (mk l2)
  | [] => ret (mk (l1 ++ [(set_key, set_value)]))
  end.

Definition __delitem__ (self : t) (key : str) : result t :=
  let del_key := encode_latin1 (lower key) in
  let pop_indexes := matching_indexes del_key (enumerate (_list self)) in
  let! l1 := del_each (rev pop_indexes) (_list self) in
  ret (mk l1).

(** [setdefault(key, value)] returns the object and the value. *)
Definition setdefault (self : t) (key value : str) : t * str :=
  let set_key := encode_latin1 (lower key) in
  let set_value := encode_latin1 value in
  match find_first set_key (_list self) with
  | Some item_value => (self, decode_latin1 item_value)
  | None => (mk (_list self ++ [(set_key, set_value)]), value)
  end.

(** [update(other)]: [self[key] = val] for each item of the mapping. *)
Fixpoint update (self : t) (other : list (str * str)) : result t :=
  match other with
  | [] => ret self
  | (key, val) :: rest =>
      let! self' := __setitem__ self key val in update self' rest
  end.

Definition append (self : t) (key value : str) : t :=
  let append_key := encode_latin1 (lower key) in
  let append_value := encode_latin1 value in
  mk (_list self ++ [(append_key, append_value)]).

Definition add_vary_header (self : t) (vary : str) : result t :=
  let existing := get self "vary" None in
  let vary :=
    match existing with
    | Some existing => join2 ", " existing vary
    | None => vary
    end in
  __setitem__ self "vary" vary.

(** [Headers.mutablecopy]: a mutable object over a copy of the list. *)
Definition mutablecopy (self : t) : t := mk (_list self).

(** The value [add_vary_header(vary)] gives the Vary header of the
    lines [hdrs]. *)
Definition vary_after (hdrs : list raw_header) (vary : str) : str :=
  match get (mk hdrs) "vary" None with
  | Some existing => join2 ", " existing vary
  | None => vary
  end.

(** What the specification says [set] does to the lines: the first
    line named [key] takes the new value where it stands, the later
    ones go, and a name that is not there is appended. *)
Fixpoint set_line (key value : bytes) (l : list raw_header) : list raw_header :=
  match l with
  | [] => [(key, value)]
  | (k, v) :: rest =>
      if decide (k = key) then (key, value) :: filter (fun kv => fst kv <> key) rest
      else (k, v) :: set_line key value rest
  end.

End MutableHeaders.

(** ** Python's [dict]

    A [dict] keeps its keys in insertion order and [popitem] depends on
    that order, so it is an association list: assigning to a key that
    is there overwrites the value in place, assigning to a new key
    appends. *)

Module Dict.
Abbreviation t K V := (list (K * V)).

Section dict.
Context {K V : Type} `{EqDecision K}.

Fixpoint get (d : t K V) (k : K) : option V :=
  match d with
  | [] => None
  | (k', v) :: d' => if decide (k' = k) then Some v else get d' k
  end.

(** [d[k] = v]. *)
Fixpoint set (d : t K V) (k : K) (v : V) : t K V :=
  match d with
  | [] => [(k, v)]
  | (k', v') :: d' =>
      if decide (k' = k) then (k', v) :: d' else (k', v') :: set d' k v
  end.

(** [k in d]. *)
Definition contains (d : t K V) (k : K) : bool :=
  match get d k with
  | Some _ => true
  | None => false
  end.

(** What [del d[k]] and [d.pop(k, default)] leave behind. *)
Definition remove (d : t K V) (k : K) : t K V := filter (fun kv => fst kv <> k) d.

(** [d.popitem()]: the pair inserted last and the rest, or nothing
    for an empty [dict]. *)
Definition popitem (d : t K V) : option ((K * V) * t K V) :=
  match last d with
  | Some kv => Some (kv, removelast d)
  | None => None
  end.

(** [d.update(other)], also the dict comprehension and [dict(items)]
    started from the empty [dict]. *)
Definition update (d : t K V) (other : list (K * V)) : t K V :=
  fold_left (fun acc kv => set acc (fst kv) (snd kv)) other d.

Definition of_items (items : list (K * V)) : t K V := update [] items.

Definition keys (d : t K V) : list K := map fst d.

(** The invariant of every [dict] object: no key twice. *)
Definition wf (d : t K V) : Prop := NoDup (keys d).
End dict.
End Dict.

(** ** starlette/datastructures.py: ImmutableMultiDict and MultiDict *)

Module MultiDict.
Import Py.

(** The classes of the family; [issubclass] is their hierarchy. *)
Inductive Class : Type :=
  | ImmutableMultiDict
  | MultiDict
  | QueryParams
  | FormData.

Definition issubclass (c base : Class) : bool :=
  match c, base with
  | _, ImmutableMultiDict => true
  | MultiDict, MultiDict => true
  | QueryParams, QueryParams => true
  | FormData, FormData => true
  | _, _ => false
  end.

Global Instance Class_eq_dec : EqDecision Class.
Proof. solve_decision. Defined.

Section multidict.
Context {K V : Type} `{EqDecision K}.

Record t : Type := mk {
  __class__ : Class;
  _dict : Dict.t K V;
  _list : list (K * V)
}.

(** *** ImmutableMultiDict *)

Definition multi_items (self : t) : list (K * V) := _list self.
Definition keys (self : t) : list K := Dict.keys (_dict self).
Definition values (self : t) : list V := map snd (_dict self).
Definition items (self : t) : list (K * V) := _dict self.
Definition __len__ (self : t) : nat := length (_dict self).

Definition getlist (self : t) (key : K) : list V :=
  map snd (filter (fun kv => fst kv = key) (_list self)).

Definition __getitem__ (self : t) (key : K) : result V :=
  match Dict.get (_dict self) key with
  | Some v => ret v
  | None => raise KeyError
  end.

Definition __contains__ (self : t) (key : K) : bool :=
  Dict.contains (_dict self) key.

(** [Mapping.get]: [self[key]], or [default] on KeyError. *)
Definition get (self : t) (key : K) (default : option V) : option V :=
  match __getitem__ self key with
  | inr v => Some v
  | inl _ => default
  end.

(** The one positional argument of the constructor. *)
Inductive Arg : Type :=
  | ArgMultiDict (m : t)
  | ArgMapping (d : Dict.t K V)
  | ArgItems (l : list (K * V)).

(** [not value]. *)
Definition falsy (value : Arg) : bool :=
  match value with
  | ArgMultiDict m => Nat.eqb (__len__ m) 0
  | ArgMapping d => Nat.eqb (length d) 0
  | ArgItems l => Nat.eqb (length l) 0
  end.

(** The [_items] the constructor computes from [value]. *)
Definition items_of (value : Arg) : list (K * V) :=
  if falsy value then []
  else match value with
       | ArgMultiDict m => multi_items m
       | ArgMapping d => d
       | ArgItems l => l
       end.

(** The constructor's last two lines. *)
Definition of_items (cls : Class) (_items : list (K * V)) : t :=
  mk cls (Dict.of_items _items) _items.

Definition __init__ (cls : Class) (args : list Arg) (kwargs : Dict.t K V)
    : result t :=
  if decide (length args < 2)%nat then
    let value := match args with a :: _ => a | [] => ArgItems [] end in
    let value :=
      if Nat.eqb (length kwargs) 0 then value
      else ArgItems
             (multi_items (of_items ImmutableMultiDict (items_of value))
              ++ multi_items (of_items ImmutableMultiDict
                                (items_of (ArgMapping kwargs)))) in
    ret (of_items cls (items_of value))
  else raise (AssertionError "Too many arguments.").

(** *** MultiDict

    A mutator returns the object it leaves behind, with what the
    call returns or raises. *)

Definition pop (self : t) (key : K) (default : option V) : t * option V :=
  let l := filter (fun kv => fst kv <> key) (_list self) in
  (mk (__class__ self) (Dict.remove (_dict self) key) l,
   match Dict.get (_dict self) key with
   | Some v => Some v
   | None => default
   end).

Definition __delitem__ (self : t) (key : K) : t * result unit :=
  let l := filter (fun kv => fst kv <> key) (_list self) in
  match Dict.get (_dict self) key with
  | Some _ => (mk (__class__ self) (Dict.remove (_dict self) key) l, ret tt)
  | None => (mk (__class__ self) (_dict self) l, raise KeyError)
  end.

Definition popitem (self : t) : t * result (K * V) :=
  match Dict.popitem (_dict self) with
  | Some ((key, value), d) =>
      (mk (__class__ self) d (filter (fun kv => fst kv <> key) (_list self)),
       ret (key, value))
  | None => (self, raise KeyError)
  end.

Definition poplist (self : t) (key : K) : t * list V :=
  let values := map snd (filter (fun kv => fst kv = key) (_list self)) in
  (fst (pop self key None), values).

Definition clear (self : t) : t := mk (__class__ self) [] [].

Definition setdefault (self : t) (key : K) (default : V) : t * result V :=
  let self' :=
    if __contains__ self key then self
    else mk (__class__ self) (Dict.set (_dict self) key default)
            (_list self ++ [(key, default)]) in
  (self', __getitem__ self' key).

Definition setlist (self : t) (key : K) (values : list V) : t :=
  match last values with
  | None => fst (pop self key None)
  | Some values_last =>
      let existing_items := filter (fun kv => fst kv <> key) (_list self) in
      mk (__class__ self)
         (Dict.set (_dict self) key values_last)
         (existing_items ++ map (fun value => (key, value)) values)
  end.

Definition __setitem__ (self : t) (key : K) (value : V) : t :=
  setlist self key [value].

Definition append (self : t) (key : K) (value : V) : t :=
  mk (__class__ self) (Dict.set (_dict self) key value)
     (_list self ++ [(key, value)]).

Definition update (self : t) (args : list Arg) (kwargs : Dict.t K V)
    : t * result unit :=
  match __init__ MultiDict args kwargs with
  | inl e => (self, inl e)
  | inr value =>
      let existing_items :=
        filter (fun kv => Dict.contains (_dict value) (fst kv) = false)
               (_list self) in
      (mk (__class__ self)
          (Dict.update (_dict self) (_dict value))
          (existing_items ++ multi_items value),
       ret tt)
  end.

(** *** Histories of a MultiDict *)

(** The mutating calls of the class. *)
Inductive Op : Type :=
  | Setitem (key : K) (value : V)
  | Setlist (key : K) (values : list V)
  | Append (key : K) (value : V)
  | Setdefault (key : K) (default : V)
  | Update (args : list Arg) (kwargs : Dict.t K V)
  | Pop (key : K) (default : option V)
  | Popitem
  | Poplist (key : K)
  | Delitem (key : K)
  | Clear.

(** The object a call leaves behind, whether it returns or raises. *)
Definition apply (self : t) (op : Op) : t :=
  match op with
  | Setitem key value => __setitem__ self key value
  | Setlist key values => setlist self key values
  | Append key value => append self key value
  | Setdefault key default => fst (setdefault self key default)
  | Update args kwargs => fst (update self args kwargs)
  | Pop key default => fst (pop self key default)
  | Popitem => fst (popitem self)
  | Poplist key => fst (poplist self key)
  | Delitem key => fst (__delitem__ self key)
  | Clear => clear self
  end.

(** A MultiDict that was constructed and then mutated. *)
Inductive reachable : t -> Prop :=
  | reachable_init args kwargs self :
      __init__ MultiDict args kwargs = inr self -> reachable self
  | reachable_apply self op :
      reachable self -> reachable (apply self op).

(** The value of the last pair of [l] whose key is [key]. *)
Definition last_value (l : list (K * V)) (key : K) : option V :=
  snd <$> last (filter (fun kv => fst kv = key) l).

(** The index of the first pair of [l] whose key is [key]. *)
Definition first_index (l : list (K * V)) (key : K) : option nat :=
  fst <$> list_find (fun kv => fst kv = key) l.

(** The invariant of the data model: [_dict] is a [dict] and holds,
    for each key, the value of the last pair of [_list] with that
    key. *)
Definition inv (self : t) : Prop :=
  Dict.wf (_dict self) /\ forall k, Dict.get (_dict self) k = last_value (_list self) k.

End multidict.
Global Arguments t : clear implicits.
Global Arguments Arg : clear implicits.
Global Arguments Op : clear implicits.

(** *** Equality

    [sorted] needs the pairs to be comparable: keys and values come
    with Python's [<], here stdpp's [lexico]. *)
Section equality.
Context {K V : Type} `{EqDecision K, EqDecision V}.
Context `{Lexico K, Lexico V}.
Context `{!RelDecision (@lexico K _), !RelDecision (@lexico V _)}.

(** [p < q] on 2-tuples: the first component that differs decides. *)
Definition tuple_lt (p q : K * V) : bool :=
  if decide (fst p = fst q) then bool_decide (lexico (snd p) (snd q))
  else bool_decide (lexico (fst p) (fst q)).

(** [p <= q]: not [q < p]. *)
Definition tuple_le (p q : K * V) : Prop := tuple_lt q p = false.

(** [sorted(l)]: a stable sort that compares with [<] only. *)
Fixpoint insert_sorted (x : K * V) (l : list (K * V)) : list (K * V) :=
  match l with
  | [] => [x]
  | y :: l' => if tuple_lt y x then y :: insert_sorted x l' else x :: l
  end.

Definition sorted (l : list (K * V)) : list (K * V) :=
  foldr insert_sorted [] l.

(** The right operand of [==]: an object of the family or any
    other Python value. *)
Inductive Object : Type :=
  | Instance (m : t K V)
  | Foreign.

Definition __eq__ (self : t K V) (other : Object) : bool :=
  match other with
  | Foreign => false
  | Instance o =>
      if issubclass (__class__ o) (__class__ self)
      then bool_decide (sorted (_list self) = sorted (_list o))
      else false
  end.

End equality.
Global Arguments Object : clear implicits.
End MultiDict.

(** ** starlette/datastructures.py: Headers.__eq__

    [sorted(self._list)] compares pairs of [bytes]; [bytes] compare
    byte by byte, a proper prefix being smaller. *)

Module HeadersEq.
Import Py.

(** [a < b] on single bytes: by value. *)
Global Instance byte_lexico : Lexico byte :=
  fun a b => (Byte.to_N a < Byte.to_N b)%N.

Lemma byte_to_N_inj (a b : byte) : Byte.to_N a = Byte.to_N b -> a = b.
Proof.
  intros E. apply (f_equal Byte.of_N) in E.
  rewrite !Byte.of_to_N in E. by injection E.
Qed.

Global Instance byte_lexico_po : StrictOrder (@lexico byte _).
Proof.
  unfold lexico, byte_lexico. split.
  - intros a. apply N.lt_irrefl.
  - intros a b c. apply N.lt_trans.
Qed.

Global Instance byte_lexico_trichotomy : TrichotomyT (@lexico byte _).
Proof.
  intros a b. unfold lexico, byte_lexico.
  destruct (Byte.to_N a ?= Byte.to_N b)%N eqn:H.
  - left. right. apply byte_to_N_inj. by apply N.compare_eq_iff.
  - left. left. by apply N.compare_lt_iff.
  - right. by apply N.compare_gt_iff.
Defined.

(** The right operand of [==]: a [Headers] or [MutableHeaders]
    object, or any other Python value. *)
Inductive Object : Type :=
  | Instance (h : Headers.t)
  | Foreign.

Definition __eq__ (self : Headers.t) (other : Object) : bool :=
  match other with
  | Foreign => false
  | Instance o =>
      bool_decide (MultiDict.sorted (Headers._list self)
                   = MultiDict.sorted (Headers._list o))
  end.

End HeadersEq.

(** ** starlette/datastructures.py: State

    [self._state] is a [dict] from attribute names to values. *)

Module State.
Import Py.

(** What attribute access can raise. *)
Inductive AttrExc : Type :=
  | AttributeError (message : str)
  | KeyError_.

Section state.
Context {V : Type}.

Record t : Type := mk { _state : Dict.t str V }.

(** [State(state=None)]: a new empty [dict], or the [dict] given. *)
Definition __init__ (state : option (Dict.t str V)) : t :=
  match state with
  | None => mk []
  | Some d => mk d
  end.

Definition __setattr__ (self : t) (key : str) (value : V) : t :=
  mk (Dict.set (_state self) key value).

(** The message names the class and the attribute. *)
Definition __getattr__ (self : t) (key : str) : AttrExc + V :=
  match Dict.get (_state self) key with
  | Some v => inr v
  | None =>
      inl (AttributeError ("'State' object has no attribute '" ++ key ++ "'")%string)
  end.

(** [del self._state[key]]: the [dict]'s own KeyError comes out. *)
Definition __delattr__ (self : t) (key : str) : t * (AttrExc + unit) :=
  match Dict.get (_state self) key with
  | Some _ => (mk (Dict.remove (_state self) key), inr tt)
  | None => (self, inl KeyError_)
  end.

(** The names that normal attribute lookup finds on the class
    [State] or on [object]: the methods of the class body and what
    every object has. *)
Variable class_attribute : str -> bool.

(** What reading an attribute gives: the [dict] itself, something
    of the class, or a stored value. *)
Inductive Attribute : Type :=
  | StateDict (state : Dict.t str V)
  | ClassAttribute (name : str)
  | Stored (value : V).

(** [self.key].  Python looks the name up normally first and calls
    [__getattr__] only when that fails.  The object's own
    [__dict__] holds [_state], put there by [__init__] through
    [super().__setattr__], and nothing else, since [__setattr__]
    never stores there.  [self.key = value] and [del self.key]
    always are the calls [__setattr__] and [__delattr__]. *)
Definition getattr (self : t) (key : str) : AttrExc + Attribute :=
  if String.eqb key "_state" then inr (StateDict (_state self))
  else if class_attribute key then inr (ClassAttribute key)
  else match __getattr__ self key with
       | inr value => inr (Stored value)
       | inl e => inl e
       end.
End state.
Global Arguments t : clear implicits.
Global Arguments Attribute : clear implicits.
Global Arguments ClassAttribute {V}.
End State.

(** ** starlette/middleware/gzip.py: GZipResponder

    The header list of the buffered response-start message is one
    Python list object: [MutableHeaders(raw=...)] aliases it and
    edits it in place, and the start message that is sent later holds
    the same object.  The list objects therefore live in a store and
    a message holds a reference. *)

Module GZip.
Import Py Types.

Abbreviation loc := nat.
Abbreviation store := (gmap nat (list raw_header)).

(** What the transport sees of a message when it is sent. *)
Abbreviation WireMessage := (Message (list raw_header)).

Definition on_wire (h : store) (m : Message loc) : WireMessage :=
  mkMessage (msg_type m) (msg_status m)
            ((fun l => h !!! l) <$> msg_headers m)
            (msg_body m) (msg_more_body m).

Section responder.
(** [gzip.GzipFile] writing to [self.gzip_buffer]: the compressor
    state, the bytes written to the buffer when the file is
    opened, by [write] and by [close]. *)
Variable GzipFile : Type.
Variable gzip_open : Z -> GzipFile * bytes.
Variable gzip_write : GzipFile -> bytes -> GzipFile * bytes.
Variable gzip_close : GzipFile -> bytes.

Record GZipResponder : Type := mkResponder {
  minimum_size : Z;
  initial_message : Message loc;
  started : bool;
  gzip_buffer : bytes;
  gzip_file : GzipFile;
  gzip_closed : bool
}.

(** The responder, the list objects and what went down [self.send]. *)
Record State : Type := mkState {
  self : GZipResponder;
  heap : store;
  wire : list WireMessage
}.

(** Code that mutates the state and returns or raises. *)
Definition M (A : Type) : Type := State -> State * result A.

Definition mret {A} (a : A) : M A := fun st => (st, inr a).
Definition mraise {A} (e : Exc) : M A := fun st => (st, inl e).
Definition mbind {A B} (m : M A) (f : A -> M B) : M B :=
  fun st =>
    match m st with
    | (st', inr a) => f a st'
    | (st', inl e) => (st', inl e)
    end.
Definition mseq {B} (m : M unit) (k : M B) : M B := mbind m (fun _ => k).

Definition read_self : M GZipResponder := fun st => (st, inr (self st)).
(** [await self.send(message)]. *)
Definition send (m : Message loc) : M unit :=
  fun st => (mkState (self st) (heap st) (wire st ++ [on_wire (heap st) m]), inr tt).

(** A [MutableHeaders] method on the object whose [_list] is the
    list at [l]. *)
Definition on_headers (l : loc)
    (f : Headers.t -> result Headers.t) : M unit :=
  fun st =>
    match f (Headers.mk (heap st !!! l)) with
    | inr h' => (mkState (self st) (<[l := Headers._list h']> (heap st)) (wire st), inr tt)
    | inl e => (st, inl e)
    end.

(** [self.gzip_file.write(body)]. *)
Definition gzip_file_write (body : bytes) : M unit :=
  fun st =>
    let r := self st in
    if gzip_closed r then (st, inl ValueError)
    else
      let '(f, out) := gzip_write (gzip_file r) body in
      (mkState (mkResponder (minimum_size r) (initial_message r) (started r)
                            (gzip_buffer r ++ out) f (gzip_closed r))
               (heap st) (wire st), inr tt).

(** [self.gzip_file.close()]. *)
Definition gzip_file_close : M unit :=
  fun st =>
    let r := self st in
    if gzip_closed r then (st, inr tt)
    else
      (mkState (mkResponder (minimum_size r) (initial_message r) (started r)
                            (gzip_buffer r ++ gzip_close (gzip_file r))
                            (gzip_file r) true)
               (heap st) (wire st), inr tt).

(** [self.gzip_buffer.seek(0); self.gzip_buffer.truncate()]. *)
Definition gzip_buffer_reset : M unit :=
  fun st =>
    let r := self st in
    (mkState (mkResponder (minimum_size r) (initial_message r) (started r)
                          [] (gzip_file r) (gzip_closed r))
             (heap st) (wire st), inr tt).

Definition set_initial_message (m : Message loc) : M unit :=
  fun st =>
    let r := self st in
    (mkState (mkResponder (minimum_size r) m (started r)
                          (gzip_buffer r) (gzip_file r) (gzip_closed r))
             (heap st) (wire st), inr tt).

Definition set_started : M unit :=
  fun st =>
    let r := self st in
    (mkState (mkResponder (minimum_size r) (initial_message r) true
                          (gzip_buffer r) (gzip_file r) (gzip_closed r))
             (heap st) (wire st), inr tt).

(** [self.initial_message["headers"]]. *)
Definition initial_headers : M loc :=
  fun st =>
    match msg_headers (initial_message (self st)) with
    | Some l => (st, inr l)
    | None => (st, inl KeyError)
    end.

Definition GZipResponder__init__ (minimum_size : Z) (compresslevel : Z)
    : GZipResponder :=
  let '(f, out) := gzip_open compresslevel in
  mkResponder minimum_size empty_message false out f false.

Definition send_with_gzip (message : Message loc) : M unit :=
  match msg_type message with
  | None => mraise KeyError
  | Some message_type =>
      mbind read_self (fun r =>
      if String.eqb message_type "http.response.start" then
        set_initial_message message
      else if String.eqb message_type "http.response.body" then
        if negb (started r) then
          mseq set_started (
          let body := default [] (msg_body message) in
          let more_body := default false (msg_more_body message) in
          if (Z.of_nat (length body) <? minimum_size r)%Z && negb more_body then
            mseq (send (initial_message r)) (send message)
          else if negb more_body then
            mseq (gzip_file_write body) (
            mseq gzip_file_close (
            mbind read_self (fun r1 =>
            let body := gzip_buffer r1 in
            mbind initial_headers (fun headers =>
            mseq (on_headers headers
                    (fun h => MutableHeaders.__setitem__ h "Content-Encoding" "gzip")) (
            mseq (on_headers headers
                    (fun h => MutableHeaders.__setitem__ h "Content-Length"
                                (str_of_nat (length body)))) (
            mseq (on_headers headers
                    (fun h => MutableHeaders.add_vary_header h "Accept-Encoding")) (
            let message := set_body message body in
            mseq (send (initial_message r1)) (send message))))))))
          else
            mbind initial_headers (fun headers =>
            mseq (on_headers headers
                    (fun h => MutableHeaders.__setitem__ h "Content-Encoding" "gzip")) (
            mseq (on_headers headers
                    (fun h => MutableHeaders.add_vary_header h "Accept-Encoding")) (
            mseq (on_headers headers
                    (fun h => MutableHeaders.__delitem__ h "Content-Length")) (
            mseq (gzip_file_write body) (
            mbind read_self (fun r1 =>
            let message := set_body message (gzip_buffer r1) in
            mseq gzip_buffer_reset (
            mseq (send (initial_message r1)) (send message)))))))))
        else
          let body := default [] (msg_body message) in
          let more_body := default false (msg_more_body message) in
          mseq (gzip_file_write body) (
          mseq (if negb more_body then gzip_file_close else mret tt) (
          mbind read_self (fun r1 =>
          let message := set_body message (gzip_buffer r1) in
          mseq gzip_buffer_reset (send message))))
      else mret tt)
  end.

(** The application under the responder, as the messages it hands
    to [send_with_gzip] one after the other; an exception ends the
    run. *)
Fixpoint send_all (messages : list (Message loc)) : M unit :=
  match messages with
  | [] => mret tt
  | m :: rest => mseq (send_with_gzip m) (send_all rest)
  end.

(** The gzip stream of [body]: what one [GzipFile] leaves in its
    buffer after it was opened, wrote [body] and was closed. *)
Definition gzip_compress (compresslevel : Z) (body : bytes) : bytes :=
  let '(f, out0) := gzip_open compresslevel in
  let '(f', out1) := gzip_write f body in
  out0 ++ out1 ++ gzip_close f'.

(** What a [GzipFile] writes to its buffer for each of [chunks], one
    [write] after the other, and the state it is left in. *)
Fixpoint gzip_write_each (f : GzipFile) (chunks : list bytes) : GzipFile * list bytes :=
  match chunks with
  | [] => (f, [])
  | chunk :: rest =>
      let '(f1, out) := gzip_write f chunk in
      let '(f2, outs) := gzip_write_each f1 rest in
      (f2, out :: outs)
  end.

(** The application under [GZipMiddleware] when its [send] is the
    transport's: every message goes out as it is. *)
Definition forward_all (messages : list (Message loc)) (h : store)
    (w : list WireMessage) : list WireMessage :=
  w ++ map (on_wire h) messages.

(** [GZipMiddleware.__call__]: on an HTTP scope whose Accept-Encoding
    header mentions gzip a new responder handles the application's
    messages, otherwise the application talks to the transport
    directly.  The result is the store, what was sent, and how the
    call ended. *)
Definition GZipMiddleware__call__ (minimum_size compresslevel : Z) (scope : Scope)
    (messages : list (Message loc)) (h : store) (w : list WireMessage)
    : store * list WireMessage * result unit :=
  let direct := (h, forward_all messages h w, ret tt) in
  if String.eqb (scope_type scope) "http" then
    match Headers.__init__ None None (Some scope) with
    | inl e => (h, w, inl e)
    | inr headers =>
        if str_contains "gzip"
             (default "" (Headers.get headers "Accept-Encoding" (Some "")))
        then
          let responder := GZipResponder__init__ minimum_size compresslevel in
          let '(st, r) := send_all messages (mkState responder h w) in
          (heap st, wire st, r)
        else direct
    end
  else direct.

End responder.

Global Arguments mkResponder {GzipFile}.
Global Arguments minimum_size {GzipFile}.
Global Arguments initial_message {GzipFile}.
Global Arguments started {GzipFile}.
Global Arguments gzip_buffer {GzipFile}.
Global Arguments gzip_file {GzipFile}.
Global Arguments gzip_closed {GzipFile}.
Global Arguments mkState {GzipFile}.
Global Arguments self {GzipFile}.
Global Arguments heap {GzipFile}.
Global Arguments wire {GzipFile}.
Global Arguments GZipResponder__init__ {GzipFile}.
Global Arguments send_with_gzip {GzipFile}.
Global Arguments send_all {GzipFile}.
Global Arguments gzip_compress {GzipFile}.
Global Arguments gzip_write_each {GzipFile}.
Global Arguments GZipMiddleware__call__ {GzipFile}.
End GZip.

(** ** starlette/middleware/errors.py: ServerErrorMiddleware

    A coroutine is the tree of what it does with the channel: it
    sends, it receives, and in the end it returns or raises.  The
    transport accepts every message it is sent. *)

Module Errors.
Import Py Types.

Abbreviation Message := (Types.Message (list raw_header)).

(** Modelled from the spec: the request view built from the scope
    ([starlette/requests.py] is not part of the sources); its
    headers are the header collection of the scope. *)
Record Request : Type := mkRequest { scope : Scope }.

Definition Request_headers (request : Request) : Headers.t :=
  Headers.mk (scope_headers (scope request)).

(** Modelled from the spec: the response wrapper
    ([starlette/responses.py] is not part of the sources).  It
    buffers or streams a body and, when called, emits exactly one
    start message with its status and headers followed by one or
    more body messages, the last of which says that no more body
    follows.  [body] is the first chunk, or the whole body of a
    buffered response; [later_chunks] are the chunks a streaming
    response sends after it. *)
Record Response : Type := mkResponse {
  status_code : Z;
  media_type : str;
  body : bytes;
  raw_headers : list raw_header;
  later_chunks : list bytes
}.

Definition start_message (response : Response) : Message :=
  mkMessage (Some "http.response.start") (Some (status_code response))
            (Some (raw_headers response)) None None.

Definition body_message (chunk : bytes) (more_body : bool) : Message :=
  mkMessage (Some "http.response.body") None None (Some chunk) (Some more_body).

(** The body messages of the chunk [chunk] and the chunks after it. *)
Fixpoint body_messages (chunk : bytes) (later : list bytes) : list Message :=
  match later with
  | [] => [body_message chunk false]
  | next :: later' => body_message chunk true :: body_messages next later'
  end.

(** Everything a response emits, in order. *)
Definition response_messages (response : Response) : list Message :=
  start_message response :: body_messages (body response) (later_chunks response).

Section middleware.
(** The instances of Python's [Exception] that user code raises. *)
Variable Exception : Type.

(** The instance [KeyError(key)] that a [dict] raises for a missing
    key. *)
Variable key_error : str -> Exception.

(** The headers a response computes from its media type and body. *)
Variable init_headers : str -> bytes -> list raw_header.

(** The traceback renderings of the debug page. *)
Variable generate_html : Exception -> str.
Variable generate_plain_text : Exception -> str.

(** Modelled from the spec: the body of a text response is its
    content, held here as the encoded text, in one chunk. *)
Definition render (content : str) : bytes := list_byte_of_string content.

Definition PlainTextResponse (content : str) (status_code : Z) : Response :=
  mkResponse status_code "text/plain" (render content)
             (init_headers "text/plain" (render content)) [].

Definition HTMLResponse (content : str) (status_code : Z) : Response :=
  mkResponse status_code "text/html" (render content)
             (init_headers "text/html" (render content)) [].

(** A coroutine is what it does with the channel.  [await
    send(message)] either returns, and the coroutine goes on as
    [k None], or raises [exc] at the [await], and the coroutine, which
    may catch it, goes on as [k (Some exc)]. *)
Inductive Coroutine : Type :=
  | Return
  | Raise (exc : Exception)
  | Send (message : Message) (k : option Exception -> Coroutine)
  | Receive (k : Message -> Coroutine).

(** [await send(message)] outside any [try]: an exception of the
    send ends the coroutine. *)
Definition Await_send (message : Message) (k : Coroutine) : Coroutine :=
  Send message (fun raised =>
                  match raised with
                  | None => k
                  | Some exc => Raise exc
                  end).

Definition ASGIApp : Type := Scope -> Coroutine.

Inductive Outcome : Type :=
  | Returned
  | Raised (exc : Exception).

(** The transport: the inbound messages in the order [receive]
    hands them out, how many were taken, and what was sent. *)
Record Transport : Type := mkTransport {
  inbound : nat -> Message;
  taken : nat;
  wire : list Message
}.

Definition receive (t : Transport) : Message * Transport :=
  (inbound t (taken t), mkTransport (inbound t) (S (taken t)) (wire t)).

(** The transport takes a message. *)
Definition transmit (message : Message) (t : Transport) : Transport :=
  mkTransport (inbound t) (taken t) (wire t ++ [message]).

(** The transport's [send]: it takes every message and raises
    nothing. *)
Definition send (message : Message) (t : Transport) : Transport * option Exception :=
  (transmit message t, None).

(** Running a coroutine whose [send] is the callable [send_]; the
    state [S] holds the transport and what [send_] closes over. *)
Fixpoint run {S : Type} (receive_ : S -> Message * S)
    (send_ : Message -> S -> S * option Exception)
    (c : Coroutine) (s : S) : S * Outcome :=
  match c with
  | Return => (s, Returned)
  | Raise exc => (s, Raised exc)
  | Send message k =>
      let '(s', raised) := send_ message s in run receive_ send_ (k raised) s'
  | Receive k => let '(message, s') := receive_ s in run receive_ send_ (k message) s'
  end.

(** Modelled from the spec: calling a response sends its start
    message, then its body messages. *)
Definition Response__call__ (response : Response) (t : Transport) : Transport :=
  fold_left (fun t message => transmit message t) (response_messages response) t.

(** A handler [handler(request, exc)], as [is_async_callable] tells
    callables apart: a function, plain or [async def]; an object with
    a [__call__] method, plain or [async def]; or a
    [functools.partial] around another callable.  A call returns a
    response or raises. *)
Inductive Handler : Type :=
  | Function (iscoroutinefunction : bool)
             (call : Request -> Exception -> Exception + Response)
  | CallableObject (call_iscoroutinefunction : bool)
                   (call : Request -> Exception -> Exception + Response)
  | Partial (func : Handler).

(** [handler(request, exc)]; what a [partial] binds is part of the
    function it wraps. *)
Fixpoint handler_call (obj : Handler) (request : Request) (exc : Exception)
    : Exception + Response :=
  match obj with
  | Function _ call => call request exc
  | CallableObject _ call => call request exc
  | Partial func => handler_call func request exc
  end.

(** [starlette/_utils.py]: unwrap the partials, then
    [iscoroutinefunction(obj) or (callable(obj) and
    iscoroutinefunction(obj.__call__))]. *)
Fixpoint is_async_callable (obj : Handler) : bool :=
  match obj with
  | Partial func => is_async_callable func
  | Function iscoroutinefunction _ => iscoroutinefunction || false
  | CallableObject call_iscoroutinefunction _ => false || call_iscoroutinefunction
  end.

(** [await run_in_threadpool(func, request, exc)]: the call runs in
    a worker thread and its result, or its exception, comes back. *)
Definition run_in_threadpool (func : Handler) (request : Request) (exc : Exception)
    : Exception + Response :=
  handler_call func request exc.

Record ServerErrorMiddleware : Type := mkServerErrorMiddleware {
  app : ASGIApp;
  handler : option Handler;
  debug : bool
}.

Definition debug_response (request : Request) (exc : Exception) : Response :=
  let accept := default "" (Headers.get (Request_headers request) "accept" (Some "")) in
  if str_contains "text/html" accept then
    HTMLResponse (generate_html exc) 500
  else
    PlainTextResponse (generate_plain_text exc) 500.

Definition error_response (request : Request) (exc : Exception) : Response :=
  PlainTextResponse "Internal Server Error" 500.

(** The closure [_send] over [response_started] and [send].
    [message["type"]] raises KeyError for a message without a type,
    before anything is recorded or sent. *)
Definition _send (message : Message) (s : Transport * bool)
    : (Transport * bool) * option Exception :=
  let '(t, response_started) := s in
  match msg_type message with
  | None => ((t, response_started), Some (key_error "type"))
  | Some message_type =>
      let response_started :=
        if decide (message_type = "http.response.start") then true
        else response_started in
      let '(t', raised) := send message t in
      ((t', response_started), raised)
  end.

Definition _receive (s : Transport * bool) : Message * (Transport * bool) :=
  let '(t, response_started) := s in
  let '(message, t') := receive t in
  (message, (t', response_started)).

Definition __call__ (self : ServerErrorMiddleware) (scope : Scope) (t : Transport)
    : Transport * Outcome :=
  if negb (bool_decide (scope_type scope = "http")) then
    run receive send (app self scope) t
  else
    let '((t1, response_started), outcome) :=
      run _receive _send (app self scope) (t, false) in
    match outcome with
    | Returned => (t1, Returned)
    | Raised exc =>
        let request := mkRequest scope in
        let response :=
          if debug self then inr (debug_response request exc)
          else match handler self with
               | None => inr (error_response request exc)
               | Some h =>
                   if is_async_callable h then handler_call h request exc
                   else run_in_threadpool h request exc
               end in
        match response with
        | inl handler_exc => (t1, Raised handler_exc)
        | inr response =>
            let t2 :=
              if negb response_started then Response__call__ response t1
              else t1 in
            (t2, Raised exc)
        end
    end.

(** The number of response-start messages in a list of messages. *)
Definition count_start (l : list Message) : nat :=
  length (filter (fun m => msg_type m = Some "http.response.start") l).

(** What a coroutine adds to what was sent when it runs on the
    transport itself. *)
Definition sent_by (c : Coroutine) (t : Transport) : list Message :=
  drop (length (wire t)) (wire (fst (run receive send c t))).

End middleware.

Global Arguments Return {Exception}.
Global Arguments Raise {Exception}.
Global Arguments Send {Exception}.
Global Arguments Receive {Exception}.
Global Arguments Await_send {Exception}.
Global Arguments Returned {Exception}.
Global Arguments Raised {Exception}.
Global Arguments send {Exception}.
Global Arguments run {Exception S}.
Global Arguments Function {Exception}.
Global Arguments CallableObject {Exception}.
Global Arguments Partial {Exception}.
Global Arguments handler_call {Exception}.
Global Arguments is_async_callable {Exception}.
Global Arguments run_in_threadpool {Exception}.
Global Arguments mkServerErrorMiddleware {Exception}.
Global Arguments app {Exception}.
Global Arguments handler {Exception}.
Global Arguments debug {Exception}.
Global Arguments debug_response {Exception}.
Global Arguments error_response {Exception}.
Global Arguments _send {Exception}.
Global Arguments __call__ {Exception}.
Global Arguments sent_by {Exception}.
End Errors.

(** ** applications.py: Starlette.build_middleware_stack

    [self.exception_handlers] and [self.user_middleware] are mutable
    objects that outlive the build, and the build fills a [dict] of its
    own that the exception middleware keeps: the [dict] and [list]
    objects live in a heap and are named by references. *)

Module Applications.
Import Py.

(** A key of the exception-handler map: an integer status code or an
    exception class, named. *)
Inductive HandlerKey : Type :=
  | StatusCode (code : Z)
  | ExceptionClass (name : str).

Global Instance HandlerKey_eq_dec : EqDecision HandlerKey.
Proof. solve_decision. Defined.

(** The class [Exception]. *)
Definition Exception : HandlerKey := ExceptionClass "Exception".

(** [key in (500, Exception)]. *)
Definition is_server_error_key (key : HandlerKey) : bool :=
  bool_decide (key = StatusCode 500) || bool_decide (key = Exception).

Abbreviation loc := nat.

Section applications.
Variable Handler : Type.
Variable Router : Type.
(** A keyword argument value of a user middleware. *)
Variable UserValue : Type.

Inductive MiddlewareClass : Type :=
  | ServerErrorMiddleware
  | ExceptionMiddleware
  | UserClass (name : str).

(** The keyword arguments of a descriptor. *)
Inductive Options : Type :=
  | ServerErrorOptions (handler : option Handler) (debug : bool)
  | ExceptionOptions (handlers : loc) (debug : bool)
  | UserOptions (kwargs : list (str * UserValue)).

(** Modelled from the spec: the middleware descriptor, a (factory,
    options) pair ([starlette/middleware/__init__.py] is not part
    of the sources); iterating it yields the two. *)
Record Middleware : Type := mkMiddleware {
  cls : MiddlewareClass;
  options : Options
}.

(** What [cls(app=app, **options)] builds. *)
Inductive ASGIApp : Type :=
  | RouterApp (router : Router)
  | MiddlewareApp (cls : MiddlewareClass) (app : ASGIApp) (options : Options).

Record Heap : Type := mkHeap {
  dicts : gmap loc (Dict.t HandlerKey Handler);
  lists : gmap loc (list Middleware)
}.

Record Starlette : Type := mkStarlette {
  _debug : bool;
  router : Router;
  exception_handlers : loc;
  user_middleware : loc
}.

(** [{}]: a new [dict] object. *)
Definition new_dict (h : Heap) : loc * Heap :=
  let l := fresh (dom (dicts h)) in
  (l, mkHeap (<[l := []]> (dicts h)) (lists h)).

(** [d[key] = value] on the [dict] object at [d]. *)
Definition dict_setitem (d : loc) (key : HandlerKey) (value : Handler) (h : Heap) : Heap :=
  mkHeap (<[d := Dict.set (dicts h !!! d) key value]> (dicts h)) (lists h).

(** The loop over [self.exception_handlers.items()]; the local
    [exception_handlers] is the [dict] object it fills. *)
Fixpoint partition_loop (items : list (HandlerKey * Handler))
    (error_handler : option Handler) (exception_handlers : loc) (h : Heap)
    : option Handler * Heap :=
  match items with
  | [] => (error_handler, h)
  | (key, value) :: rest =>
      if is_server_error_key key then
        partition_loop rest (Some value) exception_handlers h
      else
        partition_loop rest error_handler exception_handlers
                       (dict_setitem exception_handlers key value h)
  end.

Definition build_middleware_stack (self : Starlette) (h : Heap) : ASGIApp * Heap :=
  let debug := _debug self in
  let error_handler := None in
  let '(exception_handlers_, h) := new_dict h in
  let '(error_handler, h) :=
    partition_loop (dicts h !!! exception_handlers self)
                   error_handler exception_handlers_ h in
  let middleware :=
    [mkMiddleware ServerErrorMiddleware (ServerErrorOptions error_handler debug)]
    ++ (lists h !!! user_middleware self)
    ++ [mkMiddleware ExceptionMiddleware (ExceptionOptions exception_handlers_ debug)] in
  let app :=
    fold_left (fun app mw => MiddlewareApp (cls mw) app (options mw))
              (rev middleware) (RouterApp (router self)) in
  (app, h).

(** [add_middleware]: the descriptor goes to the front of the list
    object [self.user_middleware], and the stack is built again.
    The result is the new [self.middleware_stack]. *)
Definition add_middleware (self : Starlette) (middleware_class : MiddlewareClass)
    (options : Options) (h : Heap) : ASGIApp * Heap :=
  let h :=
    mkHeap (dicts h)
           (<[user_middleware self :=
                mkMiddleware middleware_class options
                :: (lists h !!! user_middleware self)]> (lists h)) in
  build_middleware_stack self h.

(** [add_exception_handler]: the handler is assigned in the [dict]
    object [self.exception_handlers], and the stack is built again. *)
Definition add_exception_handler (self : Starlette)
    (exc_class_or_status_code : HandlerKey) (handler : Handler) (h : Heap)
    : ASGIApp * Heap :=
  let h := dict_setitem (exception_handlers self) exc_class_or_status_code handler h in
  build_middleware_stack self h.

(** The setter of [debug]: the flag is stored, and the stack is
    built again. *)
Definition set_debug (self : Starlette) (value : bool) (h : Heap)
    : Starlette * (ASGIApp * Heap) :=
  let self :=
    mkStarlette value (router self) (exception_handlers self) (user_middleware self) in
  (self, build_middleware_stack self h).

(** The chain the specification describes: each descriptor of
    [mws], in the given order, around [inner]. *)
Definition wrap_all (mws : list Middleware) (inner : ASGIApp) : ASGIApp :=
  foldr (fun mw app => MiddlewareApp (cls mw) app (options mw)) inner mws.

(** The handler registered for the generic server error: the value
    of the last item whose key is 500 or [Exception]. *)
Definition server_error_handler (items : list (HandlerKey * Handler)) : option Handler :=
  snd <$> last (filter (fun kv => is_server_error_key (fst kv) = true) items).

(** All the other items. *)
Definition other_handlers (items : list (HandlerKey * Handler))
    : list (HandlerKey * Handler) :=
  filter (fun kv => is_server_error_key (fst kv) = false) items.

End applications.

Global Arguments ServerErrorOptions {Handler UserValue}.
Global Arguments ExceptionOptions {Handler UserValue}.
Global Arguments UserOptions {Handler UserValue}.
Global Arguments mkMiddleware {Handler UserValue}.
Global Arguments cls {Handler UserValue}.
Global Arguments options {Handler UserValue}.
Global Arguments RouterApp {Handler Router UserValue}.
Global Arguments MiddlewareApp {Handler Router UserValue}.
Global Arguments mkHeap {Handler UserValue}.
Global Arguments dicts {Handler UserValue}.
Global Arguments lists {Handler UserValue}.
Global Arguments mkStarlette {Router}.
Global Arguments _debug {Router}.
Global Arguments router {Router}.
Global Arguments exception_handlers {Router}.
Global Arguments user_middleware {Router}.
Global Arguments new_dict {Handler UserValue}.
Global Arguments dict_setitem {Handler UserValue}.
Global Arguments partition_loop {Handler UserValue}.
Global Arguments build_middleware_stack {Handler Router UserValue}.
Global Arguments wrap_all {Handler Router UserValue}.
Global Arguments add_middleware {Handler Router UserValue}.
Global Arguments add_exception_handler {Handler Router UserValue}.
Global Arguments set_debug {Handler Router UserValue}.
Global Arguments server_error_handler {Handler}.
Global Arguments other_handlers {Handler}.
End Applications.

(** ** Concrete inputs for the examples *)

Module Examples.
Import Py Types.

Section gzip.
Import GZip.

(** A stand-in compressor for the examples: it frames the body
    between a one-byte header and a one-byte trailer. *)
Definition toy_open (compresslevel : Z) : bytes * bytes := ([], [x1f]).
Definition toy_write (f : bytes) (data : bytes) : bytes * bytes := (f ++ data, data).
Definition toy_close (f : bytes) : bytes := [x00].

Definition example_start : Message loc :=
  mkMessage (Some "http.response.start") (Some 200%Z) (Some 1%nat) None None.

(** A start message without the optional ["headers"] key. *)
Definition example_start_no_headers : Message loc :=
  mkMessage (Some "http.response.start") (Some 200%Z) None None None.

Definition example_body (content : str) : Message loc :=
  mkMessage (Some "http.response.body") None None (Some (encode_latin1 content)) None.

Definition example_state (minimum_size : Z) : State bytes :=
  mkState (GZipResponder__init__ toy_open minimum_size 9)
          {[ 1%nat := [(encode_latin1 "content-length", encode_latin1 "10")] ]} [].

(** One body message of a streamed response. *)
Definition example_chunk (content : str) (more_body : bool) : Message loc :=
  mkMessage (Some "http.response.body") None None (Some (encode_latin1 content))
            (Some more_body).

End gzip.

Section state.

(** Some of the names the class [State] and [object] define. *)
Definition state_class_attribute (key : str) : bool :=
  bool_decide (key ∈ ["__init__"; "__setattr__"; "__getattr__"; "__delattr__";
                      "__class__"; "__dict__"; "__doc__"]).

End state.

Section errors.
Import Errors.

(** The example exceptions are their messages; this is
    [KeyError(key)] among them. *)
Definition example_key_error (key : str) : string := ("KeyError: " ++ key)%string.


Definition no_headers (media_type : str) (body : bytes) : list raw_header := [].

Definition quiet_transport : Transport :=
  mkTransport (fun _ => empty_message) 0 [].


(** An application that answers and returns. *)
Definition hello_app : ASGIApp string :=
  fun _ =>
    Await_send (mkMessage (Some "http.response.start") (Some 200%Z) (Some []) None None)
      (Await_send (mkMessage (Some "http.response.body") None None (Some []) None) Return).

(** An application that starts a response and then fails. *)
Definition late_failing_app : ASGIApp string :=
  fun _ =>
    Await_send (mkMessage (Some "http.response.start") (Some 200%Z) (Some []) None None)
      (Raise "late").

(** A handler that fails. *)
Definition broken_handler : Handler string :=
  Function false (fun _ _ => inl "handler failed").

End errors.

Section applications.
Import Applications.

Definition example_heap : Heap string Z :=
  mkHeap {[ 0%nat := [(StatusCode 404, "not_found"); (StatusCode 500, "oops");
                      (ExceptionClass "ValueError", "bad_value");
                      (Exception, "generic")] ]}
         {[ 1%nat := [mkMiddleware (UserClass "GZipMiddleware")
                                   (UserOptions [("minimum_size", 500%Z)]);
                      mkMiddleware (UserClass "CORSMiddleware") (UserOptions [])] ]}.

Definition example_app : Starlette unit := mkStarlette false tt 0%nat 1%nat.

End applications.
End Examples.

(** * Properties *)

(** ** Header collections *)

Module HeadersFacts.
Import Py Types MutableHeaders.

(** Rewriting the head of a [bind] with an equation that matches it
    up to the unfolding of decision procedures. *)
Ltac rewrite_bind E :=
  match type of E with
  | _ = ?r =>
      match goal with
      | |- context [bind ?X _] =>
          let EX := fresh in
          assert (EX : X = r) by exact E; rewrite EX; clear EX
      end
  end.

Lemma enumerate_from_app {A} (l1 l2 : list A) i :
  enumerate_from i (l1 ++ l2)
  = enumerate_from i l1 ++ enumerate_from (i + length l1) l2.
Proof.
  revert i; induction l1 as [|x l1 IH]; intros i; simpl.
  - by rewrite Nat.add_0_r.
  - rewrite IH. do 3 f_equal. lia.
Qed.

Lemma matching_indexes_app key l1 l2 :
  matching_indexes key (l1 ++ l2)
  = matching_indexes key l1 ++ matching_indexes key l2.
Proof. unfold matching_indexes. by rewrite filter_app, map_app. Qed.

(** Deleting the matching indexes from the highest down removes
    exactly the matching lines; [p] and [s] are the lines around the
    part that was searched. *)
Lemma del_each_rev_matching key l p s :
  del_each (rev (matching_indexes key (enumerate_from (length p) l))) (p ++ l ++ s)
  = ret (p ++ filter (fun kv => fst kv <> key) l ++ s).
Proof.
  revert s; induction l as [|x l IH] using rev_ind; intros s; [done|].
  rewrite enumerate_from_app, matching_indexes_app, rev_app_distr.
  rewrite filter_app, <- !app_assoc. simpl.
  unfold matching_indexes at 1. simpl.
  rewrite filter_cons, filter_nil, (filter_cons _ x), filter_nil. simpl.
  destruct (decide (x.1 = key)) as [Hx|Hx].
  - rewrite decide_False by (intros Hn; by apply Hn).
    simpl. unfold list_del.
    rewrite decide_True by (rewrite !length_app; simpl; lia).
    simpl.
    replace (delete (length p + length l) (p ++ l ++ x :: s)) with (p ++ l ++ s).
    + apply IH.
    + rewrite <- length_app, !app_assoc.
      generalize (p ++ l). intros q. induction q; simpl; [done|]. by f_equal.
  - rewrite decide_True by done. simpl. apply (IH (x :: s)).
Qed.

Lemma delitem_filter self key :
  __delitem__ self key
  = ret (mk (filter (fun kv => fst kv <> encode_latin1 (lower key)) (_list self))).
Proof.
  unfold __delitem__, enumerate.
  pose proof (del_each_rev_matching (encode_latin1 (lower key)) (_list self) [] []) as E.
  simpl in E. rewrite !app_nil_r in E. by rewrite E.
Qed.

Lemma insert_middle {A} (p q : list A) x y :
  <[length p := y]> (p ++ x :: q) = p ++ y :: q.
Proof. induction p; simpl; [done|]. by f_equal. Qed.

Lemma matching_indexes_none key l i :
  Forall (fun kv => fst kv <> key) l ->
  matching_indexes key (enumerate_from i l) = [].
Proof.
  intros Hl; revert i; induction Hl as [|x l Hx _ IH]; intros i; [done|].
  simpl. unfold matching_indexes. rewrite filter_cons. simpl.
  rewrite decide_False by done. apply IH.
Qed.

Lemma filter_none key (l : list raw_header) :
  Forall (fun kv => fst kv <> key) l ->
  filter (fun kv => fst kv <> key) l = l.
Proof.
  induction 1 as [|x l Hx _ IH]; [done|].
  rewrite filter_cons, decide_True by done. f_equal. exact IH.
Qed.

Lemma find_first_none key l :
  find_first key l = None <-> Forall (fun kv => fst kv <> key) l.
Proof.
  induction l as [|[k v] l IH]; simpl.
  - split; [constructor|done].
  - destruct (decide (k = key)) as [->|Hk].
    + split; [done|]. intros HF. inversion HF; simplify_eq/=.
    + rewrite IH. split.
      * by constructor.
      * by inversion 1.
Qed.

(** [__setitem__], index bookkeeping and all, is [set_line]. *)
Lemma setitem_set_line_aux key value l p :
  Forall (fun kv => fst kv <> key) p ->
  (let found_indexes := matching_indexes key (enumerate (p ++ l)) in
   let! l1 := del_each (rev (tail found_indexes)) (p ++ l) in
   match found_indexes with
   | idx :: _ => let! l2 := list_setitem l1 idx (key, value) in ret (mk l2)
   | [] => ret (mk (l1 ++ [(key, value)]))
   end)
  = ret (mk (p ++ set_line key value l)).
Proof.
  revert p; induction l as [|x l IH]; intros p Hp; simpl.
  - rewrite app_nil_r. unfold enumerate.
    by rewrite matching_indexes_none.
  - destruct x as [k v]. destruct (decide (k = key)) as [->|Hk].
    + unfold enumerate. rewrite enumerate_from_app, matching_indexes_app.
      rewrite matching_indexes_none by done. simpl.
      unfold matching_indexes at 1 2. rewrite !filter_cons. simpl.
      rewrite !decide_True by done. simpl.
      pose proof (del_each_rev_matching key l (p ++ [(key, v)]) []) as E.
      rewrite length_app in E. simpl in E.
      rewrite Nat.add_1_r, app_nil_r, <- !app_assoc in E. simpl in E.
      rewrite_bind E. simpl.
      unfold list_setitem.
      rewrite decide_True by (rewrite length_app; simpl; lia). simpl.
      rewrite app_nil_r, insert_middle. reflexivity.
    + specialize (IH (p ++ [(k, v)])).
      rewrite <- !app_assoc in IH. simpl in IH. apply IH.
      apply Forall_app. split; [done|]. by repeat constructor.
Qed.

Lemma setitem_set_line self key value :
  __setitem__ self key value
  = ret (mk (set_line (encode_latin1 (lower key)) (encode_latin1 value) (_list self))).
Proof.
  unfold __setitem__.
  exact (setitem_set_line_aux _ _ (_list self) [] (Forall_nil_2 _)).
Qed.

Lemma find_first_filter_ne key key' (l : list raw_header) :
  key <> key' ->
  find_first key' (filter (fun kv => fst kv <> key) l) = find_first key' l.
Proof.
  intros Hne; induction l as [|[k v] l IH]; [done|].
  rewrite filter_cons. destruct (decide _) as [Hk|Hk]; cbn [find_first fst] in *.
  - by rewrite IH.
  - destruct (decide (k = key')) as [->|_]; [|done].
    destruct (decide (key' = key)) as [E|E]; [congruence|by destruct Hk].
Qed.

(** What a lookup finds after an assignment. *)
Lemma find_first_set_line key value key' l :
  find_first key' (set_line key value l)
  = if decide (key = key') then Some value else find_first key' l.
Proof.
  induction l as [|[k v] l IH]; simpl.
  - destruct (decide (key = key')); done.
  - destruct (decide (k = key)) as [->|Hk]; cbn [find_first].
    + destruct (decide (key = key')); [done|]. by apply find_first_filter_ne.
    + rewrite IH. destruct (decide (k = key')) as [->|]; [|done].
      by rewrite decide_False.
Qed.

Lemma set_line_none key value l :
  Forall (fun kv => fst kv <> key) l ->
  set_line key value l = l ++ [(key, value)].
Proof.
  induction 1 as [|[k v] l Hx _ IH]; [done|].
  simpl in *. rewrite decide_False by done. by rewrite IH.
Qed.

Lemma set_line_last key value value0 l :
  Forall (fun kv => fst kv <> key) l ->
  set_line key value (l ++ [(key, value0)]) = l ++ [(key, value)].
Proof.
  induction 1 as [|[k v] l Hx _ IH]; simpl.
  - by rewrite decide_True.
  - simpl in *. rewrite decide_False by done. by rewrite IH.
Qed.

Lemma decode_encode s : decode_latin1 (encode_latin1 s) = s.
Proof. apply string_of_list_byte_of_string. Qed.

Lemma encode_inj s1 s2 : encode_latin1 s1 = encode_latin1 s2 -> s1 = s2.
Proof. intros E. by rewrite <- (decode_encode s1), E, decode_encode. Qed.


(** C10: deleting a name that no line carries raises nothing and
    leaves the header list as it was. *)
Theorem delitem_missing_key_noop (h : Headers.t) (k : str) :
  (forall v, (encode_latin1 (lower k), v) ∉ _list h) ->
  __delitem__ h k = inr h.
Proof.
  intros Hk. rewrite delitem_filter. unfold ret. f_equal.
  destruct h as [l]; simpl in *. f_equal.
  apply filter_none. apply Forall_forall. intros [k' v] Hin E.
  simpl in E; subst k'. by apply (Hk v).
Qed.

Lemma delitem_missing_key_noop_witness :
  __delitem__ (mk [(encode_latin1 "content-type", encode_latin1 "text/plain")])
              "Content-Length"
  = inr (mk [(encode_latin1 "content-type", encode_latin1 "text/plain")]).
Proof.
  apply delitem_missing_key_noop. intros v Hin.
  apply list_elem_of_singleton in Hin. vm_compute in Hin. discriminate Hin.
Defined.

(** C8: two calls of [add_vary_header("Accept-Encoding")] on headers
    without a vary line leave one vary line, whose value is the two
    names joined by a comma and a space. *)
Theorem add_vary_header_twice (h : Headers.t) :
  __contains__ h "vary" = false ->
  exists h2,
    (let! h1 := add_vary_header h "Accept-Encoding" in
     add_vary_header h1 "Accept-Encoding") = inr h2
    /\ _list h2 = _list h ++ [(encode_latin1 "vary",
                               encode_latin1 "Accept-Encoding, Accept-Encoding")]
    /\ getlist h2 "Vary" = ["Accept-Encoding, Accept-Encoding"]
    /\ length (filter (fun kv => fst kv = encode_latin1 "vary") (_list h2)) = 1%nat.
Proof.
  intros Hc. destruct h as [l]. unfold __contains__ in Hc. simpl in Hc.
  assert (Hnone : find_first (encode_latin1 "vary") l = None).
  { change (encode_latin1 (lower "vary")) with (encode_latin1 "vary") in Hc.
    by destruct (find_first _ l). }
  pose proof (proj1 (find_first_none _ _) Hnone) as Hall.
  exists (mk (l ++ [(encode_latin1 "vary",
                     encode_latin1 "Accept-Encoding, Accept-Encoding")])).
  split; [|split; [reflexivity|split]].
  - unfold add_vary_header at 1, get, __getitem__. cbn [_list].
    change (encode_latin1 (lower "vary")) with (encode_latin1 "vary").
    rewrite Hnone. cbn [raise]. rewrite setitem_set_line. cbn [_list bind ret].
    change (encode_latin1 (lower "vary")) with (encode_latin1 "vary").
    rewrite set_line_none by done.
    unfold add_vary_header, get, __getitem__. cbn [_list].
    change (encode_latin1 (lower "vary")) with (encode_latin1 "vary").
    assert (Hf : find_first (encode_latin1 "vary")
                   (l ++ [(encode_latin1 "vary", encode_latin1 "Accept-Encoding")])
                 = Some (encode_latin1 "Accept-Encoding")).
    { clear Hc Hnone. induction Hall as [|[k v] l Hx _ IH]; [done|].
      cbn [app find_first]. simpl in Hx. by rewrite decide_False. }
    rewrite Hf. cbn [ret]. rewrite decode_encode, setitem_set_line. cbn [_list].
    change (encode_latin1 (lower "vary")) with (encode_latin1 "vary").
    rewrite set_line_last by done. reflexivity.
  - unfold getlist. cbn [_list].
    change (encode_latin1 (lower "Vary")) with (encode_latin1 "vary").
    rewrite filter_app.
    replace (filter (fun kv : raw_header => fst kv = encode_latin1 "vary") l) with (@nil raw_header).
    + reflexivity.
    + clear Hc Hnone. induction Hall as [|x l Hx _ IH]; [done|].
      rewrite filter_cons, decide_False by done. exact IH.
  - cbn [_list]. rewrite filter_app.
    replace (filter (fun kv : raw_header => fst kv = encode_latin1 "vary") l) with (@nil raw_header).
    + reflexivity.
    + clear Hc Hnone. induction Hall as [|x l Hx _ IH]; [done|].
      rewrite filter_cons, decide_False by done. exact IH.
Qed.

Lemma add_vary_header_twice_witness :
  exists h2,
    (let! h1 := add_vary_header (mk [(encode_latin1 "content-type", encode_latin1 "text/html")])
                                "Accept-Encoding" in
     add_vary_header h1 "Accept-Encoding") = inr h2
    /\ _list h2 = [(encode_latin1 "content-type", encode_latin1 "text/html");
                   (encode_latin1 "vary", encode_latin1 "Accept-Encoding, Accept-Encoding")]
    /\ getlist h2 "Vary" = ["Accept-Encoding, Accept-Encoding"]
    /\ length (filter (fun kv => fst kv = encode_latin1 "vary") (_list h2)) = 1%nat.
Proof.
  apply (add_vary_header_twice
           (mk [(encode_latin1 "content-type", encode_latin1 "text/html")])).
  vm_compute. reflexivity.
Defined.

Lemma find_first_elem key l :
  (exists v, find_first key l = Some v) <-> (exists v, (key, v) ∈ l).
Proof.
  split.
  - intros [v Hv]. exists v. induction l as [|[k w] l IH]; [done|].
    cbn [find_first] in Hv. destruct (decide (k = key)) as [->|].
    + simplify_eq. apply list_elem_of_here.
    + apply list_elem_of_further. by apply IH.
  - intros [v Hv]. destruct (find_first key l) as [w|] eqn:E; [by exists w|].
    apply find_first_none in E. rewrite Forall_forall in E.
    by destruct (E _ Hv).
Qed.

Lemma find_first_mapping key (items : list (str * str)) :
  find_first key
    (map (fun kv => (encode_latin1 (lower (fst kv)), encode_latin1 (snd kv))) items)
  = (fun kv => encode_latin1 (snd kv))
      <$> head (filter (fun kv => encode_latin1 (lower (fst kv)) = key) items).
Proof.
  induction items as [|[n v] items IH]; [done|].
  cbn [map find_first fst snd]. rewrite filter_cons. cbn [fst].
  destruct (decide (encode_latin1 (lower n) = key)); [done|]. exact IH.
Qed.

(** C4, as the code has it: a lookup lower-cases the query key and
    compares bytes with the stored names.  (1) Two query keys that
    lower-case to the same name give the same answers on every
    instance.  (2) An instance built from a string mapping stores
    lower-cased names, so each of its headers is found under any
    casing of its name, the answer being the value of the first item
    stored under that lower-cased name.  (3) An instance built from a
    raw list or from a scope stores the names as given: a key is
    found exactly when a stored name is, byte for byte, the
    lower-cased key. *)
Theorem headers_lookup_case (h : Headers.t) (k1 k2 : str) :
  lower k1 = lower k2 ->
  (forall d, get h k1 d = get h k2 d)
  /\ __getitem__ h k1 = __getitem__ h k2
  /\ __contains__ h k1 = __contains__ h k2
  /\ (forall items name value,
        __init__ (Some items) None None = inr h ->
        (name, value) ∈ items ->
        lower name = lower k1 ->
        __contains__ h k1 = true
        /\ exists name' value',
             head (filter (fun kv => lower (fst kv) = lower k1) items)
             = Some (name', value')
             /\ __getitem__ h k1 = inr value'
             /\ forall d, get h k1 d = Some value')
  /\ (forall l sc,
        __init__ None (Some l) None = inr h
        \/ (__init__ None None (Some sc) = inr h /\ scope_headers sc = l) ->
        (__contains__ h k1 = true <-> exists v, (encode_latin1 (lower k1), v) ∈ l)).
Proof.
  intros Hk. split; [|split; [|split; [|split]]].
  - intros d. unfold get, __getitem__. by rewrite Hk.
  - unfold __getitem__. by rewrite Hk.
  - unfold __contains__. by rewrite Hk.
  - intros items name value Hinit Hin Hname.
    cbn in Hinit. injection Hinit as <-.
    unfold __contains__, get, __getitem__. cbn [_list].
    rewrite find_first_mapping.
    assert (Hfil : filter (fun kv : str * str => encode_latin1 (lower (fst kv))
                                                 = encode_latin1 (lower k1)) items
                   = filter (fun kv : str * str => lower (fst kv) = lower k1) items).
    { apply list_filter_iff. intros [n v]. cbn [fst]. split.
      - apply encode_inj.
      - by intros ->. }
    rewrite Hfil.
    destruct (filter (fun kv : str * str => lower (fst kv) = lower k1) items)
      as [|[name' value'] rest] eqn:E.
    + assert (Hx : (name, value) ∈ filter (fun kv : str * str => lower (fst kv) = lower k1) items)
        by (apply list_elem_of_filter; done).
      rewrite E in Hx. by apply not_elem_of_nil in Hx.
    + cbn -[decode_latin1 encode_latin1]. split; [done|]. exists name', value'.
      rewrite decode_encode. done.
  - intros l sc Hinit.
    assert (Hl : _list h = l).
    { destruct Hinit as [Hinit|[Hinit <-]]; cbn in Hinit; by injection Hinit as <-. }
    unfold __contains__. rewrite Hl, <- find_first_elem.
    destruct (find_first _ l) as [v|]; split; try done.
    + by exists v.
    + by intros [v ?].
Qed.

Lemma headers_lookup_case_witness :
  let h := mk [(encode_latin1 "x-foo", encode_latin1 "1")] in
  (forall d, get h "X-Foo" d = get h "x-foo" d)
  /\ __getitem__ h "X-Foo" = inr "1"
  /\ __contains__ h "X-FOO" = true.
Proof.
  intros h.
  destruct (headers_lookup_case h "X-Foo" "x-foo" eq_refl) as (Hget & _ & _ & Hmap & _).
  destruct (headers_lookup_case h "X-FOO" "x-foo" eq_refl) as (_ & _ & _ & Hmap' & _).
  split; [exact Hget|]. split.
  - destruct (Hmap [("X-Foo", "1")] "X-Foo" "1" eq_refl) as (_ & n & v & Hh & Hg & _).
    + apply list_elem_of_here.
    + reflexivity.
    + cbn in Hh. injection Hh as <- <-. exact Hg.
  - apply (Hmap' [("X-Foo", "1")] "X-Foo" "1" eq_refl).
    + apply list_elem_of_here.
    + reflexivity.
Defined.

(** C4 as stated fails: a header that a raw list stores under a name
    with capitals is found under no casing of that name. *)
Lemma headers_raw_capital_not_found :
  exists h,
    __init__ None (Some [(encode_latin1 "X-Foo", encode_latin1 "1")]) None = inr h
    /\ (encode_latin1 "X-Foo", encode_latin1 "1") ∈ raw h
    /\ get h "X-Foo" None = None
    /\ get h "x-foo" None = None
    /\ __getitem__ h "X-Foo" = inl KeyError
    /\ __contains__ h "X-Foo" = false.
Proof.
  eexists. split; [reflexivity|]. split; [apply list_elem_of_here|].
  repeat split; vm_compute; reflexivity.
Qed.

End HeadersFacts.

(** ** Python's [dict] *)

Module DictFacts.
Section dict.
Context {K V : Type} `{EqDecision K}.
Implicit Types (d : list (K * V)) (k : K) (v : V).

Lemma get_set d k v k' :
  Dict.get (Dict.set d k v) k' = if decide (k = k') then Some v else Dict.get d k'.
Proof.
  induction d as [|[k0 v0] d IH]; cbn [Dict.set Dict.get].
  - by destruct (decide (k = k')).
  - destruct (decide (k0 = k)) as [->|Hne]; cbn [Dict.get].
    + by destruct (decide (k = k')).
    + rewrite IH. destruct (decide (k0 = k')) as [->|]; [|done].
      by rewrite decide_False.
Qed.

Lemma get_None d k : Dict.get d k = None <-> k ∉ Dict.keys d.
Proof.
  unfold Dict.keys. induction d as [|[k0 v0] d IH]; cbn [Dict.get map fst].
  - split; [intros _; apply not_elem_of_nil|done].
  - rewrite not_elem_of_cons. destruct (decide (k0 = k)) as [->|Hne].
    + split; [done|]. by intros [? _].
    + rewrite IH. split; [by split|by intros [_ ?]].
Qed.

Lemma get_Some_elem d k v : Dict.get d k = Some v -> (k, v) ∈ d.
Proof.
  induction d as [|[k0 v0] d IH]; cbn [Dict.get]; [done|].
  destruct (decide (k0 = k)) as [->|Hne].
  - intros [= ->]. apply list_elem_of_here.
  - intros Hg. apply list_elem_of_further. by apply IH.
Qed.

Lemma keys_set d k v k' :
  k' ∈ Dict.keys (Dict.set d k v) <-> k' = k \/ k' ∈ Dict.keys d.
Proof.
  unfold Dict.keys. induction d as [|[k0 v0] d IH]; cbn [Dict.set map fst].
  - rewrite list_elem_of_singleton. rewrite elem_of_nil. tauto.
  - destruct (decide (k0 = k)) as [->|Hne]; cbn [map fst].
    + rewrite !elem_of_cons. tauto.
    + rewrite !elem_of_cons, IH. tauto.
Qed.

Lemma wf_set d k v : Dict.wf d -> Dict.wf (Dict.set d k v).
Proof.
  unfold Dict.wf. induction d as [|[k0 v0] d IH]; cbn [Dict.set].
  - intros _. apply NoDup_singleton.
  - unfold Dict.keys in *. cbn [map fst]. rewrite NoDup_cons. intros [Hk0 Hd].
    destruct (decide (k0 = k)) as [->|Hne]; cbn [map fst].
    + by apply NoDup_cons.
    + apply NoDup_cons. split; [|by apply IH].
      fold (Dict.keys (Dict.set d k v)). rewrite keys_set. intros [?|?]; done.
Qed.

Lemma wf_update d other : Dict.wf d -> Dict.wf (Dict.update d other).
Proof.
  unfold Dict.update. revert d.
  induction other as [|kv other IH]; intros d Hd; [done|].
  cbn [fold_left]. apply IH. by apply wf_set.
Qed.

Lemma get_remove d k k' :
  Dict.get (Dict.remove d k) k' = if decide (k = k') then None else Dict.get d k'.
Proof.
  unfold Dict.remove. induction d as [|[k0 v0] d IH].
  - by destruct (decide (k = k')).
  - rewrite filter_cons. cbn [fst].
    destruct (decide (k0 <> k)) as [Hne|He]; cbn [Dict.get].
    + rewrite IH. destruct (decide (k0 = k')) as [->|]; [|done].
      by rewrite decide_False.
    + assert (k0 = k) as -> by (by destruct (decide (k0 = k)); [|destruct He]).
      rewrite IH. destruct (decide (k = k')); done.
Qed.

Lemma wf_filter (P : K * V -> Prop) `{forall x, Decision (P x)} d :
  Dict.wf d -> Dict.wf (filter P d).
Proof.
  unfold Dict.wf, Dict.keys. induction d as [|[k0 v0] d IH]; [done|].
  cbn [map fst]. rewrite NoDup_cons. intros [Hk0 Hd].
  rewrite filter_cons. destruct (decide (P (k0, v0))); [|by apply IH].
  cbn [map fst]. apply NoDup_cons. split; [|by apply IH].
  intros Hin. apply Hk0.
  apply list_elem_of_fmap in Hin as [[k1 v1] [-> Hin]].
  apply list_elem_of_filter in Hin as [_ Hin].
  apply list_elem_of_fmap. by exists (k1, v1).
Qed.

Lemma get_snoc d k v k' :
  Dict.get (d ++ [(k, v)]) k'
  = match Dict.get d k' with
    | Some w => Some w
    | None => if decide (k = k') then Some v else None
    end.
Proof.
  induction d as [|[k0 v0] d IH]; cbn [app Dict.get]; [done|].
  by destruct (decide (k0 = k')).
Qed.

(** What [popitem] hands out and leaves behind. *)
Lemma popitem_Some d k v d' :
  Dict.wf d -> Dict.popitem d = Some ((k, v), d') ->
  d = d' ++ [(k, v)] /\ Dict.wf d'
  /\ forall k', Dict.get d' k' = if decide (k = k') then None else Dict.get d k'.
Proof.
  unfold Dict.popitem. intros Hwf Hpop.
  destruct (last d) as [kv|] eqn:Hlast; [|done].
  injection Hpop as -> <-.
  apply last_Some in Hlast as [d0 ->]. rewrite removelast_last.
  split; [done|].
  unfold Dict.wf, Dict.keys in Hwf. rewrite map_app in Hwf.
  apply NoDup_app in Hwf as (Hd0 & Hdisj & _).
  split; [done|]. intros k'. rewrite get_snoc.
  destruct (decide (k = k')) as [<-|Hne].
  - apply get_None. intros Hin. apply (Hdisj _ Hin). cbn. apply list_elem_of_here.
  - by destruct (Dict.get d0 k').
Qed.

Lemma popitem_None d : Dict.popitem d = None -> d = [].
Proof.
  unfold Dict.popitem. destruct (last d) eqn:E; [done|]. intros _.
  by apply last_None.
Qed.
End dict.
End DictFacts.

(** ** ImmutableMultiDict and MultiDict *)

Module MultiDictFacts.
Import Py MultiDict DictFacts.

Section invariant.
Context {K V : Type} `{EqDecision K}.
Implicit Types (l : list (K * V)) (k key : K) (v : V) (self : MultiDict.t K V).

Lemma last_value_nil k : last_value (@nil (K * V)) k = None.
Proof. done. Qed.

Lemma last_value_app l1 l2 k :
  last_value (l1 ++ l2) k
  = match last_value l2 k with
    | Some v => Some v
    | None => last_value l1 k
    end.
Proof.
  unfold last_value. rewrite filter_app, last_app.
  by destruct (last (filter _ l2)).
Qed.

Lemma last_value_singleton k v k' :
  last_value [(k, v)] k' = if decide (k = k') then Some v else None.
Proof.
  unfold last_value. rewrite filter_cons, filter_nil. cbn [fst].
  by destruct (decide (k = k')).
Qed.

Lemma last_value_cons k v l k' :
  last_value ((k, v) :: l) k'
  = match last_value l k' with
    | Some w => Some w
    | None => if decide (k = k') then Some v else None
    end.
Proof. by rewrite (last_value_app [(k, v)] l), last_value_singleton. Qed.

(** Filtering the pairs on their key. *)
Lemma last_value_filter (P : K -> Prop) `{forall x, Decision (P x)} l k :
  last_value (filter (fun kv => P (fst kv)) l) k
  = if decide (P k) then last_value l k else None.
Proof.
  induction l as [|[k0 v0] l IH].
  - by destruct (decide (P k)).
  - rewrite filter_cons. cbn [fst]. destruct (decide (P k0)) as [HP|HP].
    + rewrite !last_value_cons, IH.
      destruct (decide (P k)) as [|HPk]; [done|].
      destruct (decide (k0 = k)) as [->|]; done.
    + rewrite last_value_cons, IH.
      destruct (decide (P k)) as [HPk|]; [|done].
      destruct (last_value l k); [done|].
      destruct (decide (k0 = k)) as [->|]; done.
Qed.

Lemma last_value_filter_ne l key k :
  last_value (filter (fun kv => fst kv <> key) l) k
  = if decide (key = k) then None else last_value l k.
Proof.
  etrans; [exact (last_value_filter (fun x => x <> key) l k)|].
  cbv beta. destruct (decide (key = k)) as [->|Hne].
  - by rewrite decide_False by (intros Hn; by apply Hn).
  - by rewrite decide_True by congruence.
Qed.

Lemma last_value_filter_absent (d : list (K * V)) l k :
  last_value (filter (fun kv => Dict.contains d (fst kv) = false) l) k
  = if Dict.contains d k then None else last_value l k.
Proof.
  etrans; [exact (last_value_filter (fun x => Dict.contains d x = false) l k)|].
  cbv beta. destruct (decide _) as [E|E]; [by rewrite E|].
  by destruct (Dict.contains d k).
Qed.

Lemma last_value_map_key key (values : list V) k :
  last_value (map (fun value => (key, value)) values) k
  = if decide (key = k) then last values else None.
Proof.
  induction values as [|v values IH] using rev_ind.
  - by destruct (decide (key = k)).
  - rewrite map_app, last_value_app, last_snoc. cbn [map].
    rewrite last_value_singleton.
    destruct (decide (key = k)); [done|]. by rewrite IH.
Qed.

(** On a [dict] the last value of a key is its only value. *)
Lemma last_value_dict (d : list (K * V)) k :
  Dict.wf d -> last_value d k = Dict.get d k.
Proof.
  unfold Dict.wf, Dict.keys. induction d as [|[k0 v0] d IH]; [done|].
  cbn [map fst]. rewrite NoDup_cons. intros [Hk0 Hd].
  rewrite last_value_cons, IH by done. cbn [Dict.get].
  destruct (decide (k0 = k)) as [->|]; [|by destruct (Dict.get d k)].
  by rewrite (proj2 (get_None d k)).
Qed.

Lemma get_update (d other : list (K * V)) k :
  Dict.get (Dict.update d other) k
  = match last_value other k with
    | Some v => Some v
    | None => Dict.get d k
    end.
Proof.
  unfold Dict.update. revert d.
  induction other as [|[k0 v0] other IH]; intros d; [done|].
  cbn [fold_left fst snd]. rewrite IH, last_value_cons, get_set.
  destruct (last_value other k); [done|]. by destruct (decide (k0 = k)).
Qed.

Lemma inv_of_items cls l : inv (of_items cls l).
Proof.
  split; cbn [of_items _dict _list].
  - apply wf_update. apply NoDup_nil_2.
  - intros k. unfold Dict.of_items. rewrite get_update.
    by destruct (last_value l k).
Qed.

Lemma inv_init cls args kwargs self :
  __init__ cls args kwargs = inr self -> inv self.
Proof.
  unfold __init__. destruct (decide _); [|done].
  intros [= <-]. apply inv_of_items.
Qed.

Lemma inv_remove self key :
  inv self ->
  inv (mk (__class__ self) (Dict.remove (_dict self) key)
          (filter (fun kv => fst kv <> key) (_list self))).
Proof.
  intros [Hwf Hget]. split; cbn [_dict _list].
  - by apply wf_filter.
  - intros k. rewrite get_remove, last_value_filter_ne, Hget.
    by destruct (decide (key = k)).
Qed.

Lemma inv_pop self key default : inv self -> inv (fst (pop self key default)).
Proof. apply inv_remove. Qed.

Lemma inv_delitem self key : inv self -> inv (fst (__delitem__ self key)).
Proof.
  intros Hinv. unfold __delitem__.
  destruct (Dict.get (_dict self) key) eqn:E; cbn [fst].
  - by apply inv_remove.
  - destruct Hinv as [Hwf Hget]. split; cbn [_dict _list]; [done|].
    intros k. rewrite last_value_filter_ne, Hget.
    destruct (decide (key = k)) as [<-|]; [|done].
    by rewrite <- Hget.
Qed.

Lemma inv_popitem self : inv self -> inv (fst (popitem self)).
Proof.
  intros Hinv. unfold popitem.
  destruct (Dict.popitem (_dict self)) as [[[key value] d]|] eqn:E; [|done].
  destruct Hinv as [Hwf Hget].
  destruct (popitem_Some _ _ _ _ Hwf E) as (_ & Hwf' & Hget').
  split; cbn [fst _dict _list]; [done|].
  intros k. rewrite Hget', last_value_filter_ne, Hget.
  by destruct (decide (key = k)).
Qed.

Lemma inv_append self key value : inv self -> inv (append self key value).
Proof.
  intros [Hwf Hget]. split; cbn [append _dict _list].
  - by apply wf_set.
  - intros k. rewrite get_set, last_value_app, last_value_singleton, Hget.
    by destruct (decide (key = k)).
Qed.

Lemma inv_setdefault self key default :
  inv self -> inv (fst (setdefault self key default)).
Proof.
  intros Hinv. unfold setdefault. cbn [fst].
  destruct (__contains__ self key); [done|].
  by apply (inv_append self key default).
Qed.

Lemma inv_setlist self key values : inv self -> inv (setlist self key values).
Proof.
  intros Hinv. unfold setlist.
  destruct (last values) as [values_last|] eqn:E; [|by apply inv_remove].
  destruct Hinv as [Hwf Hget]. split; cbn [_dict _list].
  - by apply wf_set.
  - intros k.
    rewrite get_set, last_value_app, last_value_map_key, E,
      last_value_filter_ne, Hget.
    by destruct (decide (key = k)).
Qed.

Lemma inv_update self args kwargs :
  inv self -> inv (fst (update self args kwargs)).
Proof.
  intros [Hwf Hget]. unfold update.
  destruct (__init__ MultiDict args kwargs) as [e|value] eqn:E; [done|].
  destruct (inv_init _ _ _ _ E) as [Hwfv Hgetv].
  split; cbn [fst _dict _list].
  - by apply wf_update.
  - intros k. unfold multi_items.
    rewrite get_update, last_value_app, last_value_dict by done.
    rewrite <- Hgetv.
    destruct (Dict.get (_dict value) k) eqn:Ek; [done|].
    rewrite last_value_filter_absent.
    unfold Dict.contains. by rewrite Ek.
Qed.

Lemma inv_clear self : inv (clear self).
Proof. split; [apply NoDup_nil_2|done]. Qed.

Lemma inv_apply self op : inv self -> inv (apply self op).
Proof.
  destruct op; cbn [apply]; intros Hinv.
  - by apply inv_setlist.
  - by apply inv_setlist.
  - by apply inv_append.
  - by apply inv_setdefault.
  - by apply inv_update.
  - by apply inv_pop.
  - by apply inv_popitem.
  - by apply inv_remove.
  - by apply inv_delitem.
  - apply inv_clear.
Qed.

Lemma reachable_inv self : reachable self -> inv self.
Proof.
  induction 1 as [args kwargs self Hinit|self op _ IH].
  - by eapply inv_init.
  - by apply inv_apply.
Qed.

(** Insertion order: no call reorders pairs.  What a call leaves in
    the list is pairs of the old list, in their old order, followed
    by the pairs the call adds. *)
Lemma apply_keeps_insertion_order self (op : Op K V) :
  exists kept added,
    multi_items (apply self op) = kept ++ added
    /\ kept `sublist_of` multi_items self.
Proof.
  unfold multi_items.
  destruct op as [key value|key values|key value|key default|args kwargs
                  |key default| |key|key|]; cbn [apply].
  - eexists _, _. split; [reflexivity|]. apply sublist_filter.
  - unfold setlist. destruct (last values).
    + eexists _, _. split; [reflexivity|]. apply sublist_filter.
    + exists (filter (fun kv => fst kv <> key) (_list self)), [].
      split; [by rewrite app_nil_r|]. apply sublist_filter.
  - eexists _, _. split; [reflexivity|]. done.
  - unfold setdefault. cbn [fst]. destruct (__contains__ self key).
    + exists (_list self), []. by rewrite app_nil_r.
    + eexists _, _. split; [reflexivity|]. done.
  - unfold update. destruct (__init__ MultiDict args kwargs); cbn [fst].
    + exists (_list self), []. by rewrite app_nil_r.
    + eexists _, _. split; [reflexivity|]. apply sublist_filter.
  - exists (filter (fun kv => fst kv <> key) (_list self)), [].
    split; [by rewrite app_nil_r|]. apply sublist_filter.
  - unfold popitem. destruct (Dict.popitem (_dict self)) as [[[key value] d]|]; cbn [fst].
    + exists (filter (fun kv => fst kv <> key) (_list self)), [].
      split; [by rewrite app_nil_r|]. apply sublist_filter.
    + exists (_list self), []. by rewrite app_nil_r.
  - exists (filter (fun kv => fst kv <> key) (_list self)), [].
    split; [by rewrite app_nil_r|]. apply sublist_filter.
  - unfold __delitem__. destruct (Dict.get (_dict self) key); cbn [fst].
    + exists (filter (fun kv => fst kv <> key) (_list self)), [].
      split; [by rewrite app_nil_r|]. apply sublist_filter.
    + exists (filter (fun kv => fst kv <> key) (_list self)), [].
      split; [by rewrite app_nil_r|]. apply sublist_filter.
  - exists [], []. split; [done|]. apply sublist_nil_l.
Qed.
(** C5: on a MultiDict that was constructed and then mutated by any
    calls, the index gives, for every key it holds, the value of
    the last pair with that key in the list, and [multi_items] is
    the list in its order. *)
Theorem multidict_index_reflects_last self key :
  reachable self ->
  __contains__ self key = true ->
  multi_items self = _list self
  /\ exists v,
       last_value (_list self) key = Some v
       /\ __getitem__ self key = inr v
       /\ forall default, get self key default = Some v.
Proof.
  intros Hreach Hin. split; [done|].
  destruct (reachable_inv _ Hreach) as [_ Hget].
  unfold __contains__, Dict.contains in Hin.
  unfold get, __getitem__.
  destruct (Dict.get (_dict self) key) as [v|] eqn:E; [|done].
  exists v. by rewrite <- Hget.
Qed.

(** C3, as the code has it: assigning to a key that is there leaves
    one pair with that key, found by [get] and by [getlist]; the
    pair stands at the end of the list, after all the other pairs,
    which keep their order. *)
Theorem multidict_setitem_existing self key value :
  __contains__ self key = true ->
  (forall default, get (__setitem__ self key value) key default = Some value)
  /\ __getitem__ (__setitem__ self key value) key = inr value
  /\ getlist (__setitem__ self key value) key = [value]
  /\ multi_items (__setitem__ self key value)
     = filter (fun kv => fst kv <> key) (multi_items self) ++ [(key, value)].
Proof.
  intros _. unfold __setitem__, setlist. cbn [last].
  unfold get, __getitem__, getlist, multi_items. cbn [_dict _list map].
  rewrite get_set, decide_True by done.
  repeat split.
  rewrite filter_app, filter_cons, filter_nil. cbn [fst].
  rewrite decide_True by done.
  replace (filter (fun kv : K * V => fst kv = key)
             (filter (fun kv : K * V => fst kv <> key) (_list self)))
    with (@nil (K * V)); [done|].
  induction (_list self) as [|[k v] l IH]; [done|].
  rewrite filter_cons. cbn [fst]. destruct (decide (k <> key)); [|done].
  by rewrite filter_cons, decide_False.
Qed.
End invariant.

Lemma multidict_index_reflects_last_witness :
  let self :=
    apply (apply (of_items MultiDict [(1, 10); (2, 20); (1, 11)]) (Append 2 21))
          (Setdefault 3 30) in
  multi_items self = [(1, 10); (2, 20); (1, 11); (2, 21); (3, 30)]
  /\ exists v,
       last_value (_list self) 2 = Some v
       /\ __getitem__ self 2 = inr v
       /\ forall default, get self 2 default = Some v.
Proof.
  apply (multidict_index_reflects_last (K := nat) (V := nat)).
  - do 2 apply reachable_apply.
    by apply (reachable_init [ArgItems [(1, 10); (2, 20); (1, 11)]] []).
  - reflexivity.
Defined.

Lemma multidict_setitem_existing_witness :
  let self := of_items MultiDict [(1, 10); (2, 20); (1, 11)] in
  (forall default, get (__setitem__ self 1 30) 1 default = Some 30)
  /\ __getitem__ (__setitem__ self 1 30) 1 = inr 30
  /\ getlist (__setitem__ self 1 30) 1 = [30]
  /\ multi_items (__setitem__ self 1 30) = [(2, 20); (1, 30)].
Proof.
  exact (multidict_setitem_existing (K := nat) (V := nat)
           (of_items MultiDict [(1, 10); (2, 20); (1, 11)]) 1 30 eq_refl).
Defined.

(** C3 as stated fails: the pair does not stay where the first pair
    with that key stood, it moves to the end. *)
Lemma multidict_setitem_moves_to_end :
  let self := of_items MultiDict [(1, 10); (2, 20)] in
  __contains__ self 1 = true
  /\ first_index (multi_items self) 1 = Some 0%nat
  /\ multi_items (__setitem__ self 1 30) = [(2, 20); (1, 30)]
  /\ first_index (multi_items (__setitem__ self 1 30)) 1 = Some 1%nat
  /\ multi_items (__setitem__ self 1 30) <> [(1, 30); (2, 20)].
Proof. repeat split; try reflexivity. discriminate. Qed.

End MultiDictFacts.

(** ** Equality of multi-dicts *)

Module EqualityFacts.
Import Py MultiDict.

Section equality.
Context {K V : Type} `{EqDecision K, EqDecision V}.
Context `{Lexico K, Lexico V}.
Context `{!RelDecision (@lexico K _), !RelDecision (@lexico V _)}.
Context `{!StrictOrder (@lexico K _), !StrictOrder (@lexico V _)}.
Context `{!Trichotomy (@lexico K _), !Trichotomy (@lexico V _)}.
Implicit Types (p q r : K * V) (l : list (K * V)).

Local Abbreviation tuple_le := (MultiDict.tuple_le (K := K) (V := V)).

Lemma tuple_lt_spec p q :
  tuple_lt p q = true
  <-> lexico (fst p) (fst q) \/ (fst p = fst q /\ lexico (snd p) (snd q)).
Proof.
  unfold tuple_lt. destruct (decide (fst p = fst q)) as [E|E].
  - rewrite bool_decide_eq_true. split; [by right|].
    intros [Hlt|[_ ?]]; [|done].
    rewrite E in Hlt. destruct (irreflexivity lexico _ Hlt).
  - rewrite bool_decide_eq_true. split; [by left|].
    by intros [?|[? _]].
Qed.

Lemma tuple_lt_irrefl p : tuple_lt p p = false.
Proof.
  apply not_true_is_false. rewrite tuple_lt_spec.
  intros [Hlt|[_ Hlt]]; destruct (irreflexivity lexico _ Hlt).
Qed.

Lemma tuple_lt_trans p q r :
  tuple_lt p q = true -> tuple_lt q r = true -> tuple_lt p r = true.
Proof.
  rewrite !tuple_lt_spec.
  intros [H1|[E1 H1]] [H2|[E2 H2]].
  - left. by etrans.
  - left. by rewrite <- E2.
  - left. by rewrite E1.
  - right. split; [congruence|by etrans].
Qed.

Lemma tuple_lt_trichotomy p q :
  tuple_lt p q = true \/ p = q \/ tuple_lt q p = true.
Proof.
  rewrite !tuple_lt_spec. destruct p as [k1 v1], q as [k2 v2]; cbn [fst snd].
  destruct (trichotomy lexico k1 k2) as [?|[->|?]]; [tauto| |tauto].
  destruct (trichotomy lexico v1 v2) as [?|[->|?]]; tauto.
Qed.

Global Instance tuple_le_trans : Transitive tuple_le.
Proof.
  intros p q r Hpq Hqr. unfold tuple_le in *.
  apply not_true_is_false. intros Hrp.
  destruct (tuple_lt_trichotomy p q) as [Hlt|[->|Hlt]].
  - pose proof (tuple_lt_trans _ _ _ Hrp Hlt). congruence.
  - congruence.
  - congruence.
Qed.

Global Instance tuple_le_antisymm : AntiSymm (=) tuple_le.
Proof.
  intros p q Hpq Hqp. unfold tuple_le in *.
  destruct (tuple_lt_trichotomy p q) as [?|[?|?]]; congruence.
Qed.

Lemma insert_sorted_perm p l : insert_sorted p l ≡ₚ p :: l.
Proof.
  induction l as [|q l IH]; cbn [insert_sorted]; [done|].
  destruct (tuple_lt q p); [|done].
  rewrite IH. apply Permutation_swap.
Qed.

Lemma sorted_perm l : sorted l ≡ₚ l.
Proof.
  induction l as [|p l IH]; [done|].
  cbn [sorted foldr]. rewrite insert_sorted_perm. by constructor.
Qed.

Lemma insert_sorted_Sorted p l :
  Sorted tuple_le l -> Sorted tuple_le (insert_sorted p l).
Proof.
  induction 1 as [|q l Hl IH Hhd]; cbn [insert_sorted].
  - by repeat constructor.
  - destruct (tuple_lt q p) eqn:E.
    + constructor; [done|].
      destruct Hhd as [|r l Hqr]; cbn [insert_sorted].
      * constructor. unfold tuple_le.
        apply not_true_is_false. intros Hpq.
        pose proof (tuple_lt_trans _ _ _ E Hpq) as Hqq.
        by rewrite tuple_lt_irrefl in Hqq.
      * destruct (tuple_lt r p); constructor; [done|].
        unfold tuple_le. apply not_true_is_false. intros Hpq.
        pose proof (tuple_lt_trans _ _ _ E Hpq) as Hqq.
        by rewrite tuple_lt_irrefl in Hqq.
    + constructor; [by constructor|]. by constructor.
Qed.

Lemma sorted_Sorted l : Sorted tuple_le (sorted l).
Proof.
  induction l as [|p l IH]; [constructor|].
  cbn [sorted foldr]. by apply insert_sorted_Sorted.
Qed.

(** Two lists sort to the same list exactly when one is a
    rearrangement of the other. *)
Lemma sorted_eq_iff l1 l2 : sorted l1 = sorted l2 <-> l1 ≡ₚ l2.
Proof.
  split.
  - intros E. by rewrite <- (sorted_perm l1), E, sorted_perm.
  - intros Hp. apply (Sorted_unique tuple_le); [apply sorted_Sorted..|].
    by rewrite !sorted_perm.
Qed.




End equality.



End EqualityFacts.

(** ** The gzip responder *)

Module GZipFacts.
Import Py Types GZip HeadersFacts Examples.

Section responder.
Context {GzipFile : Type}.
Variable gzip_open : Z -> GzipFile * bytes.
Variable gzip_write : GzipFile -> bytes -> GzipFile * bytes.
Variable gzip_close : GzipFile -> bytes.

Local Abbreviation send_all := (GZip.send_all gzip_write gzip_close).
Local Abbreviation gzip_compress := (GZip.gzip_compress gzip_open gzip_write gzip_close).

(** C7: a final first body message shorter than the threshold goes
    out as it came, after the buffered start message, also as it
    came; no header list is touched. *)
Theorem gzip_small_body_passthrough (st : State GzipFile)
    (start_msg body_msg : Message loc) :
  msg_type start_msg = Some "http.response.start" ->
  msg_type body_msg = Some "http.response.body" ->
  started (self st) = false ->
  default false (msg_more_body body_msg) = false ->
  (Z.of_nat (length (default [] (msg_body body_msg))) < minimum_size (self st))%Z ->
  exists st',
    send_all [start_msg; body_msg] st = (st', inr tt)
    /\ wire st' = wire st ++ [on_wire (heap st) start_msg; on_wire (heap st) body_msg]
    /\ heap st' = heap st
    /\ msg_headers (on_wire (heap st) start_msg)
       = (fun l => heap st !!! l) <$> msg_headers start_msg
    /\ msg_body (on_wire (heap st) body_msg) = msg_body body_msg.
Proof.
  intros Hstart Hbody Hstarted Hmore Hlen.
  destruct st as [r h w]. cbn [self heap wire] in *.
  destruct r as [min im st0 buf f closed]. cbn [started minimum_size] in *. subst st0.
  apply Z.ltb_lt in Hlen.
  remember (default [] (msg_body body_msg)) as body eqn:Ebody.
  remember (default false (msg_more_body body_msg)) as more_body eqn:Emore.
  eexists. split.
  - unfold GZip.send_all, mseq, mbind, send_with_gzip.
    rewrite Hstart, Hbody.
    cbn -[on_wire Z.ltb default Z.of_nat length].
    rewrite <- Ebody, <- Emore, Hmore, Hlen. cbn -[on_wire]. reflexivity.
  - cbn [wire heap]. rewrite <- app_assoc. done.
Qed.

Lemma on_headers_setitem l key value (st : State GzipFile) :
  on_headers GzipFile l (fun h => MutableHeaders.__setitem__ h key value) st
  = (mkState (self st)
             (<[l := MutableHeaders.set_line (encode_latin1 (lower key))
                       (encode_latin1 value) (heap st !!! l)]> (heap st))
             (wire st), inr tt).
Proof. unfold on_headers. by rewrite setitem_set_line. Qed.

Lemma on_headers_add_vary l vary (st : State GzipFile) :
  on_headers GzipFile l (fun h => MutableHeaders.add_vary_header h vary) st
  = (mkState (self st)
             (<[l := MutableHeaders.set_line (encode_latin1 "vary")
                       (encode_latin1 (MutableHeaders.vary_after (heap st !!! l) vary))
                       (heap st !!! l)]> (heap st))
             (wire st), inr tt).
Proof.
  unfold on_headers, MutableHeaders.add_vary_header, MutableHeaders.vary_after.
  by rewrite setitem_set_line.
Qed.

Lemma filter_set_line_same key value (hdrs : list raw_header) :
  filter (fun kv => fst kv = key) (MutableHeaders.set_line key value hdrs)
  = [(key, value)].
Proof.
  induction hdrs as [|[k v] hdrs IH]; cbn [MutableHeaders.set_line].
  - by rewrite filter_cons, decide_True.
  - destruct (decide (k = key)) as [->|Hne].
    + rewrite filter_cons, decide_True by done. f_equal.
      clear IH. induction hdrs as [|[k' v'] hdrs IH]; [done|].
      rewrite filter_cons. cbn [fst]. destruct (decide (k' <> key)); [|done].
      by rewrite filter_cons, decide_False.
    + by rewrite filter_cons, decide_False.
Qed.

Lemma filter_set_line_other key value key' (hdrs : list raw_header) :
  key <> key' ->
  filter (fun kv => fst kv = key') (MutableHeaders.set_line key value hdrs)
  = filter (fun kv => fst kv = key') hdrs.
Proof.
  intros Hne.
  induction hdrs as [|[k v] hdrs IH]; cbn [MutableHeaders.set_line].
  - by rewrite filter_cons, decide_False.
  - destruct (decide (k = key)) as [->|Hk].
    + rewrite !filter_cons. cbn [fst]. rewrite !decide_False by done.
      clear IH. induction hdrs as [|[k' v'] hdrs IH]; [done|].
      rewrite (filter_cons (fun kv : raw_header => fst kv <> key)). cbn [fst].
      destruct (decide (k' <> key)) as [|He].
      * rewrite !filter_cons. cbn [fst]. by rewrite IH.
      * rewrite filter_cons. cbn [fst]. rewrite decide_False; [done|].
        intros ->. by apply He.
    + rewrite !filter_cons. cbn [fst]. by rewrite IH.
Qed.

Lemma get_set_line hdrs key value key' :
  Headers.get (Headers.mk (MutableHeaders.set_line (encode_latin1 (lower key))
                             (encode_latin1 value) hdrs)) key' None
  = if decide (lower key = lower key') then Some value
    else Headers.get (Headers.mk hdrs) key' None.
Proof.
  unfold Headers.get, Headers.__getitem__. cbn [Headers._list].
  rewrite find_first_set_line.
  destruct (decide (lower key = lower key')) as [E|E].
  - rewrite E, decide_True by done. cbn. by rewrite decode_encode.
  - rewrite decide_False; [done|]. intros E'. by apply encode_inj in E'.
Qed.

(** C6, as the code has it: after a start message that carries a
    header list, a final first body message at or above the
    threshold goes out once, after one start message; the body is
    the gzip stream of the original body, and the header list of
    the start message says [Content-Encoding: gzip], carries the
    length of the compressed body and a Vary header extended with
    [Accept-Encoding].  After a start message without a header list
    the responder fails with KeyError and sends nothing. *)
Theorem gzip_large_final_body_compressed (minimum_size compresslevel : Z)
    (h : store) (w : list WireMessage) (start_msg body_msg : Message loc) :
  let st := mkState (GZipResponder__init__ gzip_open minimum_size compresslevel) h w in
  let body := default [] (msg_body body_msg) in
  let compressed := gzip_compress compresslevel body in
  msg_type start_msg = Some "http.response.start" ->
  msg_type body_msg = Some "http.response.body" ->
  default false (msg_more_body body_msg) = false ->
  (minimum_size <= Z.of_nat (length body))%Z ->
  match msg_headers start_msg with
  | Some l =>
      exists st' hdrs',
        send_all [start_msg; body_msg] st = (st', inr tt)
        /\ wire st' = w ++ [on_wire (heap st') start_msg;
                            on_wire (heap st') (set_body body_msg compressed)]
        /\ msg_headers (on_wire (heap st') start_msg) = Some hdrs'
        /\ msg_body (on_wire (heap st') (set_body body_msg compressed)) = Some compressed
        /\ Headers.get (Headers.mk hdrs') "Content-Encoding" None = Some "gzip"
        /\ Headers.getlist (Headers.mk hdrs') "Content-Encoding" = ["gzip"]
        /\ Headers.get (Headers.mk hdrs') "Content-Length" None
           = Some (str_of_nat (length compressed))
        /\ Headers.get (Headers.mk hdrs') "Vary" None
           = Some (MutableHeaders.vary_after (h !!! l) "Accept-Encoding")
  | None =>
      exists st',
        send_all [start_msg; body_msg] st = (st', inl KeyError)
        /\ wire st' = w
        /\ heap st' = h
  end.
Proof.
  intros st body compressed Hstart Hbody Hmore Hlen.
  apply Z.ltb_ge in Hlen.
  assert (Ebody : body = default [] (msg_body body_msg)) by done.
  clearbody body.
  subst st compressed. unfold GZipResponder__init__, GZip.gzip_compress.
  destruct (gzip_open compresslevel) as [f0 out0].
  destruct (gzip_write f0 body) as [f1 out1] eqn:Ewrite.
  destruct (msg_headers start_msg) as [l|] eqn:Hl.
  2:{ eexists. split; [|split].
      - unfold GZip.send_all, send_with_gzip.
        rewrite Hstart, Hbody.
        unfold mseq, mbind, gzip_file_write, gzip_file_close, read_self,
          initial_headers, set_started, set_initial_message, GZip.send, mret.
        cbn -[on_wire Z.ltb default Z.of_nat length on_headers].
        rewrite <- Ebody, Hmore, Hlen. cbn -[on_wire on_headers length default].
        rewrite Ewrite. cbn -[on_wire on_headers length default].
        rewrite Hl. reflexivity.
      - reflexivity.
      - reflexivity. }
  set (compressed := out0 ++ out1 ++ gzip_close f1).
  set (h1 := MutableHeaders.set_line (encode_latin1 (lower "Content-Encoding"))
               (encode_latin1 "gzip") (h !!! l)).
  set (h2 := MutableHeaders.set_line (encode_latin1 (lower "Content-Length"))
               (encode_latin1 (str_of_nat (length compressed))) h1).
  set (h3 := MutableHeaders.set_line (encode_latin1 (lower "vary"))
               (encode_latin1 (MutableHeaders.vary_after h2 "Accept-Encoding")) h2).
  exists (mkState (mkResponder minimum_size start_msg true compressed f1 true)
                  (<[l := h3]> (<[l := h2]> (<[l := h1]> h))) 
                  (w ++ [on_wire (<[l := h3]> (<[l := h2]> (<[l := h1]> h))) start_msg;
                         on_wire (<[l := h3]> (<[l := h2]> (<[l := h1]> h)))
                                 (set_body body_msg compressed)])), h3.
  split; [|split; [done|split; [|split; [done|]]]].
  - unfold GZip.send_all, send_with_gzip.
    rewrite Hstart, Hbody.
    unfold mseq, mbind, gzip_file_write, gzip_file_close, read_self,
      initial_headers, set_started, set_initial_message, GZip.send, mret.
    cbn -[on_wire Z.ltb default Z.of_nat length on_headers].
    rewrite <- Ebody, Hmore, Hlen. cbn -[on_wire on_headers length default].
    rewrite Ewrite. cbn -[on_wire on_headers length default].
    rewrite Hl. rewrite on_headers_setitem. cbn -[on_wire on_headers length default lower encode_latin1].
    rewrite on_headers_setitem. cbn -[on_wire on_headers length default lower encode_latin1].
    rewrite on_headers_add_vary. cbn -[on_wire on_headers length default lower encode_latin1].
    rewrite !lookup_total_insert_eq.
    rewrite <- !app_assoc. fold compressed. fold h1. fold h2.
    reflexivity.
  - unfold on_wire. cbn [msg_headers]. rewrite Hl. cbn.
    by rewrite lookup_total_insert_eq.
  - subst h3 h2 h1. split; [|split; [|split]].
    + rewrite !get_set_line. done.
    + unfold Headers.getlist. cbn [Headers._list].
      rewrite filter_set_line_other by (by vm_compute).
      rewrite filter_set_line_other by (by vm_compute).
      change (encode_latin1 (lower "Content-Encoding"))
        with (encode_latin1 (lower "content-encoding")).
      rewrite filter_set_line_same. cbn [map snd]. by rewrite decode_encode.
    + rewrite !get_set_line. done.
    + rewrite get_set_line.
      assert (Ev : MutableHeaders.vary_after
                     (MutableHeaders.set_line (encode_latin1 (lower "Content-Length"))
                        (encode_latin1 (str_of_nat (length compressed)))
                        (MutableHeaders.set_line
                           (encode_latin1 (lower "Content-Encoding"))
                           (encode_latin1 "gzip") (h !!! l)))
                     "Accept-Encoding"
                   = MutableHeaders.vary_after (h !!! l) "Accept-Encoding").
      { unfold MutableHeaders.vary_after. by rewrite !get_set_line. }
      rewrite Ev. done.
Qed.

Lemma on_headers_delitem l key (st : State GzipFile) :
  on_headers GzipFile l (fun h => MutableHeaders.__delitem__ h key) st
  = (mkState (self st)
             (<[l := filter (fun kv => fst kv <> encode_latin1 (lower key))
                       (heap st !!! l)]> (heap st))
             (wire st), inr tt).
Proof. unfold on_headers. by rewrite delitem_filter. Qed.

Lemma find_first_filter_same key (hdrs : list raw_header) :
  Headers.find_first key (filter (fun kv => fst kv <> key) hdrs) = None.
Proof.
  induction hdrs as [|[k v] hdrs IH]; [done|].
  rewrite filter_cons. cbn [fst]. destruct (decide (k <> key)) as [Hne|]; [|done].
  cbn [Headers.find_first]. by rewrite decide_False.
Qed.

(** The streaming branch relies on deletion being silent: with more
    body to come the responder deletes Content-Length from the header
    list of the start message, whether the list carries one or not,
    raises nothing, and sends the start message and the first
    compressed chunk. *)
Lemma gzip_streaming_drops_content_length (minimum_size compresslevel : Z)
    (h : store) (w : list WireMessage) (start_msg body_msg : Message loc) (l : loc) :
  let st := mkState (GZipResponder__init__ gzip_open minimum_size compresslevel) h w in
  msg_type start_msg = Some "http.response.start" ->
  msg_headers start_msg = Some l ->
  msg_type body_msg = Some "http.response.body" ->
  default false (msg_more_body body_msg) = true ->
  exists st',
    send_all [start_msg; body_msg] st = (st', inr tt)
    /\ length (wire st') = (length w + 2)%nat
    /\ Headers.__contains__ (Headers.mk (heap st' !!! l)) "Content-Length" = false
    /\ Headers.get (Headers.mk (heap st' !!! l)) "Content-Encoding" None = Some "gzip".
Proof.
  intros st Hstart Hl Hbody Hmore.
  subst st. unfold GZipResponder__init__.
  destruct (gzip_open compresslevel) as [f0 out0].
  remember (default [] (msg_body body_msg)) as body eqn:Ebody.
  destruct (gzip_write f0 body) as [f1 out1] eqn:Ewrite.
  eexists. split.
  - unfold GZip.send_all, send_with_gzip.
    rewrite Hstart, Hbody.
    unfold mseq, mbind, gzip_file_write, gzip_file_close, read_self,
      initial_headers, set_started, set_initial_message, GZip.send, mret,
      gzip_buffer_reset.
    cbn -[on_wire Z.ltb default Z.of_nat length on_headers].
    rewrite <- Ebody, Hmore, andb_false_r.
    cbn -[on_wire on_headers length default].
    rewrite Hl, on_headers_setitem.
    cbn -[on_wire on_headers length default lower encode_latin1].
    rewrite on_headers_add_vary.
    cbn -[on_wire on_headers length default lower encode_latin1].
    rewrite on_headers_delitem.
    cbn -[on_wire on_headers length default lower encode_latin1].
    rewrite Ewrite. reflexivity.
  - cbn [wire heap]. split; [|split].
    + rewrite !length_app. cbn [length]. lia.
    + rewrite lookup_total_insert_eq. unfold Headers.__contains__. cbn [Headers._list].
      by rewrite find_first_filter_same.
    + rewrite !lookup_total_insert_eq.
      unfold Headers.get, Headers.__getitem__. cbn [Headers._list].
      rewrite find_first_filter_ne by (by vm_compute).
      change (encode_latin1 "vary") with (encode_latin1 (lower "vary")).
      rewrite !find_first_set_line.
      rewrite decide_False by (by vm_compute).
      rewrite decide_True by (by vm_compute).
      cbn [ret]. by rewrite decode_encode.
Qed.
End responder.

Lemma gzip_small_body_passthrough_witness :
  exists st',
    send_all toy_write toy_close [example_start; example_body "0123456789"]
             (example_state 500) = (st', inr tt)
    /\ wire st' = wire (example_state 500)
                  ++ [on_wire (heap (example_state 500)) example_start;
                      on_wire (heap (example_state 500)) (example_body "0123456789")]
    /\ heap st' = heap (example_state 500)
    /\ msg_headers (on_wire (heap (example_state 500)) example_start)
       = (fun l => heap (example_state 500) !!! l) <$> msg_headers example_start
    /\ msg_body (on_wire (heap (example_state 500)) (example_body "0123456789"))
       = msg_body (example_body "0123456789").
Proof.
  apply (gzip_small_body_passthrough toy_write toy_close (example_state 500)
           example_start (example_body "0123456789")).
  - reflexivity.
  - reflexivity.
  - reflexivity.
  - reflexivity.
  - vm_compute. reflexivity.
Defined.

Lemma gzip_large_final_body_compressed_witness :
  exists st' hdrs',
    send_all toy_write toy_close [example_start; example_body "0123456789"]
             (example_state 4) = (st', inr tt)
    /\ wire st'
       = [] ++ [on_wire (heap st') example_start;
                on_wire (heap st')
                        (set_body (example_body "0123456789")
                           (gzip_compress toy_open toy_write toy_close 9
                                          (encode_latin1 "0123456789")))]
    /\ msg_headers (on_wire (heap st') example_start) = Some hdrs'
    /\ msg_body (on_wire (heap st')
                   (set_body (example_body "0123456789")
                      (gzip_compress toy_open toy_write toy_close 9
                                     (encode_latin1 "0123456789"))))
       = Some (gzip_compress toy_open toy_write toy_close 9 (encode_latin1 "0123456789"))
    /\ Headers.get (Headers.mk hdrs') "Content-Encoding" None = Some "gzip"
    /\ Headers.getlist (Headers.mk hdrs') "Content-Encoding" = ["gzip"]
    /\ Headers.get (Headers.mk hdrs') "Content-Length" None
       = Some (str_of_nat (length (gzip_compress toy_open toy_write toy_close 9
                                                 (encode_latin1 "0123456789"))))
    /\ Headers.get (Headers.mk hdrs') "Vary" None
       = Some (MutableHeaders.vary_after (heap (example_state 4) !!! 1%nat) "Accept-Encoding").
Proof.
  apply (gzip_large_final_body_compressed toy_open toy_write toy_close 4 9
           {[ 1%nat := [(encode_latin1 "content-length", encode_latin1 "10")] ]} []
           example_start (example_body "0123456789")).
  - reflexivity.
  - reflexivity.
  - reflexivity.
  - vm_compute. discriminate.
Defined.

(** C6 as stated fails: the header list of a start message is
    optional, and after a start message without one a final body at
    or above the threshold is not sent at all; the responder raises
    KeyError and nothing reaches the transport. *)
Lemma gzip_large_final_body_without_headers :
  msg_type example_start_no_headers = Some "http.response.start"
  /\ (4 <= Z.of_nat (length (encode_latin1 "0123456789")))%Z
  /\ snd (send_all toy_write toy_close
             [example_start_no_headers; example_body "0123456789"]
             (mkState (GZipResponder__init__ toy_open 4 9) ∅ []))
     = inl KeyError
  /\ wire (fst (send_all toy_write toy_close
                  [example_start_no_headers; example_body "0123456789"]
                  (mkState (GZipResponder__init__ toy_open 4 9) ∅ [])))
     = [].
Proof. split; [reflexivity|]. split; [by vm_compute|]. split; reflexivity. Qed.
End GZipFacts.

(** ** The error boundary *)

Module ErrorsFacts.
Import Py Types Errors Examples.

Section middleware.
Context {Exception : Type}.
Variable key_error : str -> Exception.
Variable init_headers : str -> bytes -> list raw_header.
Variable generate_html : Exception -> str.
Variable generate_plain_text : Exception -> str.

Local Abbreviation _send := (Errors._send key_error).
Local Abbreviation __call__ :=
  (Errors.__call__ key_error init_headers generate_html generate_plain_text).
Local Abbreviation error_response :=
  (Errors.error_response (Exception := Exception) init_headers).

Lemma count_start_app (l1 l2 : list Message) :
  count_start (l1 ++ l2) = (count_start l1 + count_start l2)%nat.
Proof. unfold count_start. by rewrite filter_app, length_app. Qed.

Lemma count_start_cons (message : Message) (l : list Message) :
  count_start (message :: l)
  = ((if decide (msg_type message = Some "http.response.start") then 1 else 0)
     + count_start l)%nat.
Proof.
  unfold count_start. rewrite filter_cons.
  by destruct (decide (msg_type message = Some "http.response.start")).
Qed.


(** What calling a response adds to what was sent. *)
Lemma Response__call___wire (response : Response) (t : Transport) :
  wire (Response__call__ response t) = wire t ++ response_messages response
  /\ taken (Response__call__ response t) = taken t
  /\ inbound (Response__call__ response t) = inbound t.
Proof.
  unfold Response__call__. generalize (response_messages response) as l.
  intros l. revert t. induction l as [|message l IH]; intros t; cbn [fold_left].
  - by rewrite app_nil_r.
  - destruct (IH (transmit message t)) as (-> & -> & ->).
    cbn [transmit wire taken inbound]. by rewrite <- app_assoc.
Qed.

Lemma count_start_body_messages (chunk : bytes) (later : list bytes) :
  count_start (body_messages chunk later) = 0%nat.
Proof.
  revert chunk. induction later as [|next later IH]; intros chunk;
    cbn [body_messages]; rewrite count_start_cons.
  - by rewrite decide_False.
  - by rewrite decide_False, IH.
Qed.

Lemma count_start_response (response : Response) :
  count_start (response_messages response) = 1%nat.
Proof.
  unfold response_messages. rewrite count_start_cons, count_start_body_messages.
  by rewrite decide_True.
Qed.

End middleware.


End ErrorsFacts.

(** ** The pipeline composer *)

Module ApplicationsFacts.
Import Py Applications DictFacts Examples.

Section applications.
Context {Handler Router UserValue : Type}.
Implicit Types (items : list (HandlerKey * Handler))
               (h : Heap Handler UserValue)
               (mws : list (Middleware Handler UserValue)).

Lemma set_fresh (d : list (HandlerKey * Handler)) key value :
  key ∉ Dict.keys d -> Dict.set d key value = d ++ [(key, value)].
Proof.
  unfold Dict.keys. induction d as [|[k v] d IH]; cbn [Dict.set map fst app]; [done|].
  rewrite not_elem_of_cons. intros [Hne Hd].
  rewrite decide_False by done. by rewrite IH.
Qed.

(** Filling an empty [dict] with items whose keys differ keeps the
    items as they are. *)
Lemma update_wf (d items : list (HandlerKey * Handler)) :
  Dict.wf (d ++ items) -> Dict.update d items = d ++ items.
Proof.
  unfold Dict.update. revert d.
  induction items as [|[k v] items IH]; intros d Hwf; cbn [fold_left fst snd].
  - by rewrite app_nil_r.
  - assert (Hk : k ∉ Dict.keys d).
    { unfold Dict.wf, Dict.keys in *. rewrite map_app in Hwf.
      apply NoDup_app in Hwf as (_ & Hdisj & _).
      intros Hin. apply (Hdisj _ Hin). cbn. apply list_elem_of_here. }
    rewrite set_fresh by done. rewrite IH; rewrite <- app_assoc; done.
Qed.

Lemma server_error_handler_cons key value items :
  server_error_handler ((key, value) :: items)
  = match server_error_handler items with
    | Some v => Some v
    | None => if is_server_error_key key then Some value else None
    end.
Proof.
  unfold server_error_handler. rewrite filter_cons. cbn [fst].
  destruct (is_server_error_key key).
  - rewrite decide_True by done. rewrite last_cons.
    by destruct (last (filter _ items)).
  - rewrite decide_False by done. by destruct (last (filter _ items)).
Qed.

Lemma other_handlers_cons key value items :
  other_handlers ((key, value) :: items)
  = if is_server_error_key key then other_handlers items
    else (key, value) :: other_handlers items.
Proof.
  unfold other_handlers. rewrite filter_cons. cbn [fst].
  destruct (is_server_error_key key).
  - by rewrite decide_False.
  - by rewrite decide_True.
Qed.

(** The loop: the last generic handler wins, every other item is
    assigned to the [dict] at [d], in order. *)
Lemma partition_loop_spec items error_handler d h :
  partition_loop items error_handler d h
  = (match server_error_handler items with
     | Some v => Some v
     | None => error_handler
     end,
     mkHeap (<[d := Dict.update (dicts h !!! d) (other_handlers items)]> (dicts h))
            (lists h)) \/
    (other_handlers items = [] /\
     partition_loop items error_handler d h
     = (match server_error_handler items with
        | Some v => Some v
        | None => error_handler
        end, h)).
Proof.
  revert error_handler h.
  induction items as [|[key value] items IH]; intros error_handler h.
  - right. done.
  - cbn [partition_loop].
    rewrite server_error_handler_cons, other_handlers_cons.
    destruct (is_server_error_key key).
    + destruct (IH (Some value) h) as [E|[Hnil E]]; rewrite E.
      * left. by destruct (server_error_handler items).
      * right. split; [done|]. by destruct (server_error_handler items).
    + left.
      destruct (IH error_handler (dict_setitem d key value h)) as [E|[Hnil E]];
        rewrite E; unfold dict_setitem; cbn [dicts lists].
      * rewrite lookup_total_insert_eq, insert_insert_eq.
        by destruct (server_error_handler items).
      * rewrite Hnil. by destruct (server_error_handler items).
Qed.

Lemma fold_left_rev_wrap mws (inner : ASGIApp Handler Router UserValue) :
  fold_left (fun app mw => MiddlewareApp (cls mw) app (options mw)) (rev mws) inner
  = wrap_all mws inner.
Proof.
  unfold wrap_all. rewrite <- fold_left_rev_right, rev_involutive. done.
Qed.

Lemma wrap_all_app mws1 mws2 (inner : ASGIApp Handler Router UserValue) :
  wrap_all (mws1 ++ mws2) inner = wrap_all mws1 (wrap_all mws2 inner).
Proof. unfold wrap_all. by rewrite foldr_app. Qed.

(** C2: the build hands the generic handler to the error boundary
    and all other handlers, in a [dict] of its own, to the
    exception middleware; the chain is the error boundary around
    the user middleware in their order around the exception
    middleware around the router; no object that existed before
    the build is changed. *)
Theorem build_middleware_stack_chain (self : Starlette Router) h :
  Dict.wf (dicts h !!! exception_handlers self) ->
  exception_handlers self ∈ dom (dicts h) ->
  let items := dicts h !!! exception_handlers self in
  let mws := lists h !!! user_middleware self in
  exists d h',
    build_middleware_stack self h
    = (MiddlewareApp ServerErrorMiddleware
         (wrap_all mws
            (MiddlewareApp ExceptionMiddleware (RouterApp (router self))
               (ExceptionOptions d (_debug self))))
         (ServerErrorOptions (server_error_handler items) (_debug self)),
       h')
    /\ (d ∉ dom (dicts h))
    /\ dicts h' = <[d := other_handlers items]> (dicts h)
    /\ lists h' = lists h
    /\ (forall l, l ∈ dom (dicts h) -> dicts h' !! l = dicts h !! l)
    /\ dicts h' !!! exception_handlers self = items
    /\ lists h' !!! user_middleware self = mws.
Proof.
  intros Hwf Hdom items mws.
  set (d := fresh (dom (dicts h))).
  assert (Hd : d ∉ dom (dicts h)) by apply is_fresh.
  assert (Hne : d <> exception_handlers self) by (intros ->; done).
  exists d, (mkHeap (<[d := other_handlers items]> (dicts h)) (lists h)).
  assert (Hframe : forall l, l ∈ dom (dicts h) ->
            <[d := other_handlers items]> (dicts h) !! l = dicts h !! l).
  { intros l Hl. apply lookup_insert_ne. by intros ->. }
  split; [|split; [done|split; [done|split; [done|split; [exact Hframe|split]]]]].
  - unfold build_middleware_stack, new_dict. fold d. cbn [dicts lists].
    rewrite lookup_total_insert_ne by done. fold items.
    destruct (partition_loop_spec items None d
                (mkHeap (<[d := []]> (dicts h)) (lists h))) as [E|[Hnil E]];
      rewrite E; cbn [dicts lists]; fold mws.
    + rewrite lookup_total_insert_eq, insert_insert_eq.
      rewrite update_wf by (by apply wf_filter).
      rewrite fold_left_rev_wrap, wrap_all_app, wrap_all_app. cbn [app].
      unfold wrap_all at 1 3. cbn [foldr cls options].
      by destruct (server_error_handler items).
    + rewrite Hnil.
      rewrite fold_left_rev_wrap, wrap_all_app, wrap_all_app.
      unfold wrap_all at 1 3. cbn [foldr cls options].
      by destruct (server_error_handler items).
  - cbn [dicts]. by rewrite lookup_total_insert_ne.
  - done.
Qed.
End applications.

Lemma build_middleware_stack_chain_witness :
  exists d h',
    build_middleware_stack example_app example_heap
    = (MiddlewareApp ServerErrorMiddleware
         (wrap_all (lists example_heap !!! 1%nat)
            (MiddlewareApp ExceptionMiddleware (RouterApp tt)
               (ExceptionOptions d false)))
         (ServerErrorOptions (server_error_handler (dicts example_heap !!! 0%nat)) false),
       h')
    /\ (d ∉ dom (dicts example_heap))
    /\ dicts h' = <[d := other_handlers (dicts example_heap !!! 0%nat)]>
                    (dicts example_heap)
    /\ lists h' = lists example_heap
    /\ (forall l, l ∈ dom (dicts example_heap) ->
                  dicts h' !! l = dicts example_heap !! l)
    /\ dicts h' !!! 0%nat = dicts example_heap !!! 0%nat
    /\ lists h' !!! 1%nat = lists example_heap !!! 1%nat.
Proof.
  apply (build_middleware_stack_chain example_app example_heap).
  - apply (bool_decide_unpack _). vm_compute. exact I.
  - apply elem_of_dom. eexists. apply lookup_singleton_eq.
Defined.

(** The example, computed: the later of the two generic handlers is
    the error boundary's, the two others go to the exception
    middleware. *)
Lemma build_middleware_stack_example :
  server_error_handler (dicts example_heap !!! 0%nat) = Some "generic"
  /\ other_handlers (dicts example_heap !!! 0%nat)
     = [(StatusCode 404, "not_found"); (ExceptionClass "ValueError", "bad_value")].
Proof. split; vm_compute; reflexivity. Qed.
End ApplicationsFacts.

(** ** More on header collections *)

Module HeadersMore.
Import Py Types MutableHeaders HeadersFacts.

Lemma getlist_eq (self : Headers.t) key :
  getlist self key
  = map (fun kv => decode_latin1 (snd kv))
        (filter (fun kv : raw_header => fst kv = encode_latin1 (lower key)) (_list self)).
Proof. reflexivity. Qed.

Lemma filter_eq_filter_ne_same key (l : list raw_header) :
  filter (fun kv => fst kv = key) (filter (fun kv => fst kv <> key) l) = [].
Proof.
  induction l as [|[k v] l IH]; [done|].
  rewrite filter_cons. cbn [fst]. destruct (decide (k <> key)); [|done].
  by rewrite filter_cons, decide_False.
Qed.

Lemma filter_eq_filter_ne_other key key' (l : list raw_header) :
  key <> key' ->
  filter (fun kv => fst kv = key') (filter (fun kv => fst kv <> key) l)
  = filter (fun kv => fst kv = key') l.
Proof.
  intros Hne. induction l as [|[k v] l IH]; [done|].
  rewrite (filter_cons (fun kv : raw_header => fst kv <> key)). cbn [fst].
  destruct (decide (k <> key)) as [|He].
  - rewrite !filter_cons. cbn [fst]. by rewrite IH.
  - rewrite filter_cons. cbn [fst]. rewrite decide_False; [done|].
    intros ->. by apply He.
Qed.

Lemma lower_key_ne key key' :
  lower key' <> lower key -> encode_latin1 (lower key) <> encode_latin1 (lower key').
Proof. intros Hne E. apply encode_inj in E. by apply Hne. Qed.

Lemma mutableheaders_setitem_aux (self : Headers.t) (key value : str) :
  exists self',
    __setitem__ self key value = inr self'
    /\ forall key' d,
         get self' key' d
         = if decide (lower key = lower key') then Some value else get self key' d.
Proof.
  eexists. split; [apply setitem_set_line|].
  intros key' d. destruct self as [l].
  unfold get, __getitem__. cbn [_list]. rewrite find_first_set_line.
  destruct (decide (lower key = lower key')) as [E|E].
  - rewrite E, decide_True by done. cbn [ret]. by rewrite decode_encode.
  - rewrite decide_False; [done|]. intros E'. by apply encode_inj in E'.
Qed.

(** X1: [headers[key] = value] never raises.  The first line named
    [key] takes the value where it stands and the later ones go (a new
    name is appended); afterwards [key] has exactly that one value and
    every other name answers as before. *)
Theorem mutableheaders_setitem_effect (self : Headers.t) (key value : str) :
  exists self',
    __setitem__ self key value = inr self'
    /\ _list self' = set_line (encode_latin1 (lower key)) (encode_latin1 value) (_list self)
    /\ getlist self' key = [value]
    /\ (forall key' d,
          get self' key' d
          = if decide (lower key = lower key') then Some value else get self key' d)
    /\ (forall key', lower key' <> lower key -> getlist self' key' = getlist self key').
Proof.
  eexists. split; [apply setitem_set_line|]. split; [reflexivity|].
  split; [|split].
  - rewrite getlist_eq. cbn [_list].
    rewrite GZipFacts.filter_set_line_same. cbn [map snd]. by rewrite decode_encode.
  - intros key' d. destruct self as [l].
    unfold get, __getitem__. cbn [_list]. rewrite find_first_set_line.
    destruct (decide (lower key = lower key')) as [E|E].
    + rewrite E, decide_True by done. cbn [ret]. by rewrite decode_encode.
    + rewrite decide_False; [done|]. intros E'. by apply encode_inj in E'.
  - intros key' Hne. rewrite !getlist_eq. cbn [_list].
    by rewrite GZipFacts.filter_set_line_other by (by apply lower_key_ne).
Qed.

(** X2: [del headers[key]] never raises.  It removes every line named
    [key] and no other: afterwards [key] is not there, and every other
    name answers as before. *)
Theorem mutableheaders_delitem_effect (self : Headers.t) (key : str) :
  exists self',
    __delitem__ self key = inr self'
    /\ _list self' = filter (fun kv => fst kv <> encode_latin1 (lower key)) (_list self)
    /\ __contains__ self' key = false
    /\ getlist self' key = []
    /\ (forall key', lower key' <> lower key ->
          getlist self' key' = getlist self key'
          /\ forall d, get self' key' d = get self key' d).
Proof.
  eexists. split; [apply delitem_filter|]. split; [reflexivity|].
  split; [|split].
  - unfold __contains__. cbn [_list]. by rewrite GZipFacts.find_first_filter_same.
  - rewrite getlist_eq. cbn [_list]. by rewrite filter_eq_filter_ne_same.
  - intros key' Hne. split.
    + rewrite !getlist_eq. cbn [_list].
      by rewrite filter_eq_filter_ne_other by (by apply lower_key_ne).
    + intros d. unfold get, __getitem__. cbn [_list].
      by rewrite find_first_filter_ne by (by apply lower_key_ne).
Qed.
Lemma find_first_app key (l1 l2 : list raw_header) :
  find_first key (l1 ++ l2)
  = match find_first key l1 with
    | Some v => Some v
    | None => find_first key l2
    end.
Proof.
  induction l1 as [|[k v] l1 IH]; [done|].
  cbn [app find_first]. by destruct (decide (k = key)).
Qed.

(** X3: [setdefault(key, value)] never overwrites.  If a line named
    [key] is there, the headers stay as they are and the value of the
    first such line is returned; if not, one line is appended and
    [value] is returned.  Either way a lookup of [key] afterwards
    gives what was returned. *)
Theorem mutableheaders_setdefault_effect (self : Headers.t) (key value : str) :
  let self' := fst (setdefault self key value) in
  let returned := snd (setdefault self key value) in
  (forall d, get self' key d = Some returned)
  /\ (__contains__ self key = true ->
      self' = self /\ forall d, get self key d = Some returned)
  /\ (__contains__ self key = false ->
      returned = value
      /\ _list self' = _list self ++ [(encode_latin1 (lower key), encode_latin1 value)]).
Proof.
  destruct self as [l]. unfold setdefault, __contains__, get, __getitem__. cbn [_list].
  destruct (find_first (encode_latin1 (lower key)) l) as [v|] eqn:E; cbn [fst snd _list].
  - rewrite E. cbn [ret]. repeat split; done.
  - rewrite find_first_app, E. cbn [find_first]. rewrite decide_True by done.
    cbn [ret]. rewrite decode_encode. repeat split; done.
Qed.

(** X4: [append(key, value)] keeps duplicates: the values of [key]
    are the old ones followed by [value], the count of lines grows by
    one, and, since a lookup returns the first line of a name, [get]
    still answers with the old first value when there was one. *)
Theorem mutableheaders_append_effect (self : Headers.t) (key value : str) :
  getlist (append self key value) key = getlist self key ++ [value]
  /\ __len__ (append self key value) = S (__len__ self)
  /\ (forall d, get (append self key value) key d
                = match get self key None with
                  | Some first => Some first
                  | None => Some value
                  end)
  /\ (forall key', lower key' <> lower key ->
        getlist (append self key value) key' = getlist self key'
        /\ forall d, get (append self key value) key' d = get self key' d).
Proof.
  destruct self as [l]. unfold append, __len__. cbn [_list].
  split; [|split; [|split]].
  - rewrite !getlist_eq. cbn [_list].
    rewrite filter_app, map_app, filter_cons, filter_nil. cbn [fst].
    rewrite decide_True by done. cbn [map snd]. by rewrite decode_encode.
  - rewrite length_app. cbn [length]. lia.
  - intros d. unfold get, __getitem__. cbn [_list]. rewrite find_first_app.
    destruct (find_first (encode_latin1 (lower key)) l); [done|].
    cbn [find_first]. rewrite decide_True by done. cbn [ret]. by rewrite decode_encode.
  - intros key' Hne. split.
    + rewrite !getlist_eq. cbn [_list].
      rewrite filter_app, filter_cons, filter_nil. cbn [fst].
      rewrite decide_False by (by apply lower_key_ne). by rewrite app_nil_r.
    + intros d. unfold get, __getitem__. cbn [_list]. rewrite find_first_app.
      destruct (find_first (encode_latin1 (lower key')) l); [done|].
      cbn [find_first]. by rewrite decide_False by (by apply lower_key_ne).
Qed.

(** X5: [update(other)] never raises, and afterwards each name answers
    with the value of the last item of [other] that carries it, in
    any casing; a name [other] does not carry answers as before. *)
Theorem mutableheaders_update_effect (self : Headers.t) (other : list (str * str)) :
  exists self',
    update self other = inr self'
    /\ forall key d,
         get self' key d
         = match last (filter (fun kv => lower (fst kv) = lower key) other) with
           | Some kv => Some (snd kv)
           | None => get self key d
           end.
Proof.
  revert self. induction other as [|[k v] other IH]; intros self.
  - exists self. split; [done|]. done.
  - cbn [update].
    destruct (mutableheaders_setitem_aux self k v) as (self1 & E1 & Hget1).
    rewrite E1. cbn [bind].
    destruct (IH self1) as (self' & E' & Hget').
    exists self'. split; [done|].
    intros key d. rewrite Hget', Hget1, filter_cons. cbn [fst].
    destruct (decide (lower k = lower key)) as [E|E].
    + rewrite last_cons. by destruct (last (filter _ other)).
    + by destruct (last (filter _ other)).
Qed.

(** X6: the three lookups agree with [getlist]: [key in headers]
    says whether [getlist(key)] has anything, [headers[key]] is its
    first value or KeyError, and [get] falls back to the default
    exactly when it is empty. *)
Theorem headers_lookups_agree (self : Headers.t) (key : str) :
  __contains__ self key = negb (Nat.eqb (length (getlist self key)) 0)
  /\ __getitem__ self key
     = match getlist self key with
       | first :: _ => inr first
       | [] => inl KeyError
       end
  /\ forall d, get self key d
               = match getlist self key with
                 | first :: _ => Some first
                 | [] => d
                 end.
Proof.
  destruct self as [l]. unfold __contains__, get, __getitem__. rewrite getlist_eq.
  cbn [_list]. generalize (encode_latin1 (lower key)). intros k.
  induction l as [|[k' v] l IH]; [done|].
  cbn [find_first]. rewrite filter_cons. cbn [fst].
  destruct (decide (k' = k)); [done|]. exact IH.
Qed.
(** X7: the constructor takes one source at most: it raises
    AssertionError exactly when two or three of [headers], [raw] and
    [scope] are given, and with none it builds empty headers. *)
Theorem headers_init_one_source (headers : option (list (str * str)))
    (raw_ : option (list raw_header)) (scope_ : option Scope) :
  let sources := (given headers + given raw_ + given scope_)%nat in
  match Headers.__init__ headers raw_ scope_ with
  | inl e => (2 <= sources)%nat /\ exists msg, e = AssertionError msg
  | inr h => (sources <= 1)%nat /\ (sources = 0%nat -> _list h = [])
  end.
Proof.
  destruct headers, raw_, scope_; cbn; split; eauto; try lia; try discriminate.
Qed.

(** X8: headers built from a string mapping hand the mapping back with
    the names lower-cased: encoding to Latin-1 and decoding again
    loses nothing, and the order of the items is kept. *)
Theorem headers_from_mapping_items (mapping : list (str * str)) :
  exists h,
    Headers.__init__ (Some mapping) None None = inr h
    /\ items h = map (fun kv => (lower (fst kv), snd kv)) mapping
    /\ keys h = map (fun kv => lower (fst kv)) mapping
    /\ values h = map snd mapping
    /\ __len__ h = length mapping.
Proof.
  eexists. split; [reflexivity|].
  unfold items, keys, values, __len__. cbn [_list].
  rewrite !map_map, length_map. cbn [fst snd].
  repeat split; apply map_ext; intros [k v]; cbn [fst snd]; by rewrite ?decode_encode.
Qed.
(** X9: two header collections are equal exactly when they hold the
    same lines with the same multiplicities, in any order and whether
    mutable or not; a value that is no header collection is never
    equal. *)
Theorem headers_eq_iff (self : Headers.t) (other : HeadersEq.Object) :
  HeadersEq.__eq__ self other = true
  <-> exists o, other = HeadersEq.Instance o /\ _list self ≡ₚ _list o.
Proof.
  destruct other as [o|]; cbn [HeadersEq.__eq__].
  - rewrite bool_decide_eq_true, EqualityFacts.sorted_eq_iff. split.
    + intros Hp. by exists o.
    + intros (o' & Ho & Hp). by injection Ho as ->.
  - split; [done|]. by intros (o' & ? & _).
Qed.
End HeadersMore.

(** ** More on ImmutableMultiDict and MultiDict *)

Module MultiDictMore.
Import Py MultiDict DictFacts MultiDictFacts.

Section multidict.
Context {K V : Type} `{EqDecision K}.
Implicit Types (l : list (K * V)) (k key : K) (v : V) (self : MultiDict.t K V).

Lemma last_value_getlist self key :
  last_value (_list self) key = last (getlist self key).
Proof. unfold last_value, getlist. by rewrite <- fmap_last. Qed.

Lemma getlist_nil_iff l key :
  map snd (filter (fun kv : K * V => fst kv = key) l) = []
  <-> key ∉ map fst l.
Proof.
  induction l as [|[k v] l IH]; cbn [map fst].
  - split; [intros _; apply not_elem_of_nil|done].
  - rewrite filter_cons, not_elem_of_cons. cbn [fst].
    destruct (decide (k = key)) as [->|Hne].
    + split; [done|]. by intros [? _].
    + rewrite IH. split; [by split|by intros [_ ?]].
Qed.

Lemma last_value_None l key : last_value l key = None <-> key ∉ map fst l.
Proof.
  rewrite <- getlist_nil_iff. unfold last_value. rewrite <- fmap_last.
  apply last_None.
Qed.

(** With the invariant, the keys of the index are the keys in the list. *)
Lemma inv_keys self key :
  inv self -> (key ∈ Dict.keys (_dict self) <-> key ∈ map fst (_list self)).
Proof.
  intros [_ Hget].
  destruct (decide (key ∈ Dict.keys (_dict self))) as [Hin|Hin].
  - split; [intros _|done].
    destruct (decide (key ∈ map fst (_list self))) as [|Hnot]; [done|].
    apply last_value_None in Hnot. rewrite <- Hget in Hnot.
    by apply get_None in Hnot.
  - split; [done|]. intros Hl. exfalso.
    apply get_None in Hin. rewrite Hget in Hin. by apply last_value_None in Hin.
Qed.

Lemma inv_empty self : inv self -> __len__ self = 0%nat -> _list self = [].
Proof.
  intros Hinv Hlen. unfold __len__ in Hlen.
  destruct (_dict self) as [|kv d] eqn:Ed; [|done].
  destruct (_list self) as [|[k v] l] eqn:El; [done|]. exfalso.
  assert (Hk : k ∈ Dict.keys (_dict self)).
  { apply inv_keys; [done|]. rewrite El. cbn. apply list_elem_of_here. }
  rewrite Ed in Hk. by apply not_elem_of_nil in Hk.
Qed.

(** X10: the constructor keeps every pair it is given, duplicates and
    order included: from a list of pairs, or from another multi-dict
    of any class of the family, the pairs of the argument come first
    and the keyword arguments after them; more than one positional
    argument is refused.  The multi-dict given is one whose index
    agrees with its pairs, as it does for every object a constructor
    of the family built and every MultiDict mutated since. *)
Theorem multidict_init_keeps_pairs (cls : Class) (m : MultiDict.t K V)
    (kwargs : list (K * V)) :
  inv m ->
  (exists m', __init__ cls [ArgMultiDict m] kwargs = inr m'
              /\ multi_items m' = multi_items m ++ kwargs)
  /\ (forall l, exists m', __init__ cls [ArgItems l] kwargs = inr m'
                           /\ multi_items m' = l ++ kwargs)
  /\ (forall a1 a2 rest, exists msg,
        __init__ cls (a1 :: a2 :: rest) kwargs = inl (AssertionError msg)).
Proof.
  intros Hreach.
  assert (Hitems : forall l, items_of (ArgItems l) = l).
  { intros [|x l]; reflexivity. }
  assert (Hm : items_of (ArgMultiDict m) = _list m).
  { unfold items_of, falsy. destruct (Nat.eqb (__len__ m) 0) eqn:E; [|done].
    apply Nat.eqb_eq in E. by rewrite inv_empty. }
  assert (Hkw : items_of (ArgMapping kwargs) = kwargs).
  { destruct kwargs; reflexivity. }
  split; [|split].
  - eexists. split; [reflexivity|].
    unfold multi_items. cbn [of_items _list].
    destruct kwargs as [|kv kwargs]; cbn [length Nat.eqb].
    + by rewrite Hm, app_nil_r.
    + by rewrite Hitems, Hm.
  - intros l. eexists. split; [reflexivity|].
    unfold multi_items. cbn [of_items _list].
    destruct kwargs as [|kv kwargs]; cbn [length Nat.eqb].
    + by rewrite Hitems, app_nil_r.
    + by rewrite !Hitems.
  - intros a1 a2 rest. eexists. reflexivity.
Qed.
(** X11: on a multi-dict that was constructed and then mutated,
    [key in m] says whether some pair carries [key], and [len(m)]
    counts the distinct keys of the pairs, not the pairs. *)
Theorem multidict_len_counts_keys self :
  reachable self ->
  (forall key, __contains__ self key = true <-> key ∈ map fst (multi_items self))
  /\ __len__ self = length (remove_dups (map fst (multi_items self)))
  /\ keys self ≡ₚ remove_dups (map fst (multi_items self)).
Proof.
  intros Hreach. pose proof (reachable_inv _ Hreach) as Hinv.
  assert (Hperm : keys self ≡ₚ remove_dups (map fst (multi_items self))).
  { apply NoDup_Permutation.
    - apply Hinv.
    - apply NoDup_remove_dups.
    - intros k. rewrite elem_of_remove_dups. by apply inv_keys. }
  split; [|split; [|done]].
  - intros key. rewrite <- (inv_keys self key Hinv).
    unfold __contains__, Dict.contains.
    destruct (Dict.get (_dict self) key) eqn:E.
    + split; [intros _|done].
      destruct (decide (key ∈ Dict.keys (_dict self))) as [|Hn]; [done|].
      apply get_None in Hn. congruence.
    + split; [done|]. intros Hin. by apply get_None in E.
  - unfold __len__. rewrite <- (length_map fst (_dict self)).
    by apply Permutation_length in Hperm.
Qed.

Lemma getlist_filter_ne_same l key :
  map snd (filter (fun kv : K * V => fst kv = key)
             (filter (fun kv : K * V => fst kv <> key) l)) = [].
Proof.
  induction l as [|[k v] l IH]; [done|].
  rewrite filter_cons. cbn [fst]. destruct (decide (k <> key)); [|done].
  by rewrite filter_cons, decide_False.
Qed.

Lemma getlist_filter_ne_other l key key' :
  key <> key' ->
  filter (fun kv : K * V => fst kv = key')
         (filter (fun kv : K * V => fst kv <> key) l)
  = filter (fun kv : K * V => fst kv = key') l.
Proof.
  intros Hne. induction l as [|[k v] l IH]; [done|].
  rewrite (filter_cons (fun kv : K * V => fst kv <> key)). cbn [fst].
  destruct (decide (k <> key)) as [|He].
  - rewrite !filter_cons. cbn [fst]. by rewrite IH.
  - rewrite filter_cons. cbn [fst]. rewrite decide_False; [done|].
    intros ->. by apply He.
Qed.

(** X12: [pop(key, default)] on a constructed-and-mutated multi-dict
    returns the last value of [key], or the default when [key] is not
    there; afterwards no pair carries [key] and every other key
    answers as before. *)
Theorem multidict_pop_effect self key (default : option V) :
  reachable self ->
  let self' := fst (pop self key default) in
  snd (pop self key default)
  = match last (getlist self key) with
    | Some v => Some v
    | None => default
    end
  /\ __contains__ self' key = false
  /\ getlist self' key = []
  /\ (forall key', key' <> key ->
        getlist self' key' = getlist self key'
        /\ forall d, get self' key' d = get self key' d).
Proof.
  intros Hreach. destruct (reachable_inv _ Hreach) as [_ Hget].
  cbn [pop fst snd]. split; [|split; [|split]].
  - by rewrite Hget, last_value_getlist.
  - unfold __contains__, Dict.contains. cbn [_dict].
    by rewrite get_remove, decide_True.
  - unfold getlist. cbn [_list]. apply getlist_filter_ne_same.
  - intros key' Hne. split.
    + unfold getlist. cbn [_list]. by rewrite getlist_filter_ne_other.
    + intros d. unfold get, __getitem__. cbn [_dict].
      by rewrite get_remove, decide_False.
Qed.

(** X13: [poplist(key)] hands out exactly what it removes: the pairs
    left behind together with the returned values under [key] are the
    pairs there were, and no pair left behind carries [key]. *)
Theorem multidict_poplist_conserves self key :
  let self' := fst (poplist self key) in
  let returned := snd (poplist self key) in
  returned = getlist self key
  /\ multi_items self' ++ map (fun v => (key, v)) returned ≡ₚ multi_items self
  /\ getlist self' key = [].
Proof.
  cbn [poplist pop fst snd]. split; [done|]. split.
  - unfold multi_items. cbn [_list].
    rewrite <- (filter_app_complement (fun kv : K * V => fst kv = key) (_list self)) at 3.
    rewrite Permutation_app_comm. apply Permutation_app; [|done].
    assert (E : map (fun v => (key, v))
                  (map snd (filter (fun kv : K * V => fst kv = key) (_list self)))
                = filter (fun kv : K * V => fst kv = key) (_list self)).
    { induction (_list self) as [|[k v] l IH]; [done|].
      rewrite filter_cons. cbn [fst]. destruct (decide (k = key)) as [->|]; [|done].
      cbn [map snd]. by rewrite IH. }
    by rewrite E.
  - unfold getlist. cbn [_list]. apply getlist_filter_ne_same.
Qed.
(** X14: [popitem()] on a constructed-and-mutated multi-dict raises
    KeyError and changes nothing when there is no key; otherwise it
    returns a key with its last value, removes every pair with that
    key, leaves the other keys as they were, and [len] drops by one. *)
Theorem multidict_popitem_effect self :
  reachable self ->
  let self' := fst (popitem self) in
  match snd (popitem self) with
  | inl e => e = KeyError /\ self' = self /\ multi_items self = []
  | inr (key, value) =>
      last (getlist self key) = Some value
      /\ __contains__ self' key = false
      /\ getlist self' key = []
      /\ S (__len__ self') = __len__ self
      /\ (forall key', key' <> key ->
            getlist self' key' = getlist self key'
            /\ forall d, get self' key' d = get self key' d)
  end.
Proof.
  intros Hreach. pose proof (reachable_inv _ Hreach) as Hinv.
  destruct Hinv as [Hwf Hget]. unfold popitem.
  destruct (Dict.popitem (_dict self)) as [[[key value] d]|] eqn:E; cbn [fst snd].
  - destruct (popitem_Some _ _ _ _ Hwf E) as (Hd & Hwf' & Hget').
    split; [|split; [|split; [|split]]].
    + rewrite <- last_value_getlist, <- Hget, Hd, get_snoc.
      rewrite Hget', decide_True by done. by rewrite decide_True.
    + unfold __contains__, Dict.contains. cbn [_dict].
      by rewrite Hget', decide_True.
    + unfold getlist. cbn [_list]. apply getlist_filter_ne_same.
    + unfold __len__. cbn [_dict]. rewrite Hd, length_app. cbn [length]. lia.
    + intros key' Hne. split.
      * unfold getlist. cbn [_list]. by rewrite getlist_filter_ne_other.
      * intros d0. unfold get, __getitem__. cbn [_dict].
        by rewrite Hget', decide_False.
  - split; [done|]. split; [done|].
    apply popitem_None in E. apply (inv_empty self); [done|].
    unfold __len__. by rewrite E.
Qed.

(** X15: [del m[key]] on a constructed-and-mutated multi-dict raises
    KeyError for a key that is not there and leaves the multi-dict
    as it was; for a key that is there it removes every pair with
    that key and no other. *)
Theorem multidict_delitem_effect self key :
  reachable self ->
  let self' := fst (__delitem__ self key) in
  (__contains__ self key = false ->
     snd (__delitem__ self key) = inl KeyError /\ self' = self)
  /\ (__contains__ self key = true ->
        snd (__delitem__ self key) = inr tt
        /\ __contains__ self' key = false
        /\ getlist self' key = []
        /\ forall key', key' <> key ->
             getlist self' key' = getlist self key'
             /\ forall d, get self' key' d = get self key' d).
Proof.
  intros Hreach. pose proof (reachable_inv _ Hreach) as Hinv.
  unfold __delitem__, __contains__, Dict.contains.
  destruct (Dict.get (_dict self) key) as [v|] eqn:E; cbn [fst snd].
  - split; [done|]. intros _. split; [done|]. split; [|split].
    + cbn [_dict]. by rewrite get_remove, decide_True.
    + unfold getlist. cbn [_list]. apply getlist_filter_ne_same.
    + intros key' Hne. split.
      * unfold getlist. cbn [_list]. by rewrite getlist_filter_ne_other.
      * intros d. unfold get, __getitem__. cbn [_dict].
        by rewrite get_remove, decide_False.
  - split; [|done]. intros _. split; [done|].
    destruct self as [c d l]. cbn [__class__ _dict _list] in *. f_equal.
    destruct Hinv as [_ Hget]. cbn [_dict _list] in Hget.
    rewrite Hget in E. apply last_value_None in E.
    clear Hget Hreach. induction l as [|[k v] l IH]; [done|].
    cbn [map fst] in E. apply not_elem_of_cons in E as [Hk Hl].
    rewrite filter_cons. cbn [fst]. rewrite decide_True by done. by rewrite IH.
Qed.

(** X16: [setlist(key, values)] and [getlist(key)] round-trip for
    every list of values, the empty one included (it removes the
    key); [get] gives the last of the values, and every other key
    keeps its values. *)
Theorem multidict_setlist_getlist self key (values : list V) :
  getlist (setlist self key values) key = values
  /\ (forall d, get (setlist self key values) key d
                = match last values with
                  | Some v => Some v
                  | None => d
                  end)
  /\ (forall key', key' <> key ->
        getlist (setlist self key values) key' = getlist self key').
Proof.
  unfold setlist. destruct (last values) as [values_last|] eqn:E.
  - split; [|split].
    + unfold getlist. cbn [_list].
      rewrite filter_app, map_app, getlist_filter_ne_same. cbn [app].
      clear E. induction values as [|v values IH]; [done|].
      cbn [map]. rewrite filter_cons. cbn [fst]. rewrite decide_True by done.
      cbn [map snd]. by rewrite IH.
    + intros d. unfold get, __getitem__. cbn [_dict].
      by rewrite get_set, decide_True.
    + intros key' Hne. unfold getlist. cbn [_list].
      rewrite filter_app, getlist_filter_ne_other by done.
      replace (filter (fun kv : K * V => fst kv = key')
                 (map (fun value => (key, value)) values)) with (@nil (K * V)).
      * by rewrite app_nil_r.
      * clear E. induction values as [|v values IH]; [done|].
        cbn [map]. rewrite filter_cons. cbn [fst]. by rewrite decide_False.
  - apply last_None in E. subst values. cbn [pop fst]. split; [|split].
    + unfold getlist. cbn [_list]. apply getlist_filter_ne_same.
    + intros d. unfold get, __getitem__. cbn [_dict].
      by rewrite get_remove, decide_True.
    + intros key' Hne. unfold getlist. cbn [_list].
      by rewrite getlist_filter_ne_other.
Qed.

(** X17: [setdefault(key, default)] never raises and never
    overwrites: for a key that is there the multi-dict stays as it
    is and the current value comes back; otherwise one pair is added
    at the end and [default] comes back. *)
Theorem multidict_setdefault_effect self key (default : V) :
  let self' := fst (setdefault self key default) in
  exists v,
    snd (setdefault self key default) = inr v
    /\ (forall d, get self' key d = Some v)
    /\ (__contains__ self key = true ->
          self' = self /\ forall d, get self key d = Some v)
    /\ (__contains__ self key = false ->
          v = default /\ multi_items self' = multi_items self ++ [(key, default)]).
Proof.
  unfold setdefault, __contains__, Dict.contains, get, __getitem__. cbn [fst snd].
  destruct (Dict.get (_dict self) key) as [v|] eqn:E.
  - exists v. rewrite E. repeat split; done.
  - exists default. cbn [_dict]. rewrite get_set, decide_True by done.
    repeat split; done.
Qed.

(** X18: [update] replaces, it does not merge: a key the argument
    carries ends up with exactly the argument's values, a key it does
    not carry keeps its values; and when the argument is refused
    nothing changes. *)
Theorem multidict_update_replaces self (args : list (Arg K V)) (kwargs : list (K * V)) :
  match __init__ MultiDict args kwargs with
  | inl e => update self args kwargs = (self, inl e)
  | inr value =>
      snd (update self args kwargs) = inr tt
      /\ forall key,
           getlist (fst (update self args kwargs)) key
           = if __contains__ value key then getlist value key else getlist self key
  end.
Proof.
  unfold update. destruct (__init__ MultiDict args kwargs) as [e|value] eqn:E; [done|].
  cbn [fst snd]. split; [done|]. intros key.
  pose proof (inv_init _ _ _ _ E) as Hinv.
  unfold getlist, multi_items, __contains__. cbn [_list].
  rewrite filter_app, map_app.
  destruct (Dict.contains (_dict value) key) eqn:Hc.
  - replace (filter (fun kv : K * V => fst kv = key)
               (filter (fun kv : K * V => Dict.contains (_dict value) (fst kv) = false)
                  (_list self))) with (@nil (K * V)); [done|].
    induction (_list self) as [|[k v] l IH]; [done|].
    rewrite filter_cons. cbn [fst].
    destruct (decide (Dict.contains (_dict value) k = false)) as [Hk|]; [|done].
    rewrite filter_cons. cbn [fst]. rewrite decide_False; [done|].
    intros ->. congruence.
  - assert (Hnone : map snd (filter (fun kv : K * V => fst kv = key) (_list value)) = []).
    { apply getlist_nil_iff. rewrite <- (inv_keys value key Hinv).
      apply get_None. unfold Dict.contains in Hc.
      by destruct (Dict.get (_dict value) key). }
    rewrite Hnone, app_nil_r. f_equal.
    induction (_list self) as [|[k v] l IH]; [done|].
    rewrite (filter_cons (fun kv : K * V => Dict.contains (_dict value) (fst kv) = false)).
    cbn [fst].
    destruct (decide (Dict.contains (_dict value) k = false)) as [Hk|Hk].
    + rewrite !filter_cons. cbn [fst]. by rewrite IH.
    + rewrite filter_cons. cbn [fst]. rewrite decide_False; [done|].
      intros ->. congruence.
Qed.

(** X19: appends pile up in order: after the constructor got the
    pairs [l] and the pairs [ps] were appended one by one,
    [multi_items] is [l] followed by [ps], and [get] answers with the
    value of the last of all these pairs that carries the key. *)
Theorem multidict_appends_compose (l ps : list (K * V)) :
  let m := fold_left (fun m kv => append m (fst kv) (snd kv)) ps (of_items MultiDict l) in
  multi_items m = l ++ ps
  /\ length (multi_items m) = (length l + length ps)%nat
  /\ forall key d,
       get m key d = match last_value (l ++ ps) key with
                     | Some v => Some v
                     | None => d
                     end.
Proof.
  cbn zeta.
  assert (Hm : forall (ps : list (K * V)) (m : MultiDict.t K V), inv m ->
            let m' := fold_left (fun m kv => append m (fst kv) (snd kv)) ps m in
            multi_items m' = multi_items m ++ ps /\ inv m').
  { clear ps. intros ps. induction ps as [|[k v] ps IH]; intros m Hinv.
    - cbn. by rewrite app_nil_r.
    - cbn [fold_left fst snd].
      destruct (IH (append m k v) (inv_append m k v Hinv)) as [E Hinv'].
      split; [|done]. rewrite E. unfold multi_items. cbn [append _list].
      by rewrite <- app_assoc. }
  destruct (Hm ps (of_items MultiDict l) (inv_of_items MultiDict l)) as [E [_ Hget]].
  split; [exact E|]. split; [by rewrite E, length_app|].
  intros key d. unfold get, __getitem__. rewrite Hget.
  unfold multi_items in E. rewrite E. cbn [of_items _list].
  by destruct (last_value (l ++ ps) key).
Qed.
End multidict.
Lemma multidict_init_keeps_pairs_witness :
  let m := of_items QueryParams [(1, 10); (2, 20); (1, 11)] in
  (exists m', __init__ ImmutableMultiDict [ArgMultiDict m] [(3, 30)] = inr m'
              /\ multi_items m' = multi_items m ++ [(3, 30)])
  /\ (forall l, exists m', __init__ ImmutableMultiDict [ArgItems l] [(3, 30)] = inr m'
                           /\ multi_items m' = l ++ [(3, 30)])
  /\ (forall a1 a2 rest, exists msg,
        __init__ ImmutableMultiDict (a1 :: a2 :: rest) [(3, 30)]
        = inl (AssertionError msg)).
Proof.
  exact (multidict_init_keeps_pairs (K := nat) (V := nat) ImmutableMultiDict
           (of_items QueryParams [(1, 10); (2, 20); (1, 11)]) [(3, 30)]
           (inv_init QueryParams [ArgItems [(1, 10); (2, 20); (1, 11)]] [] _ eq_refl)).
Defined.

Lemma multidict_len_counts_keys_witness :
  let m := of_items MultiDict [(1, 10); (2, 20); (1, 11)] in
  (forall key, __contains__ m key = true <-> key ∈ map fst (multi_items m))
  /\ __len__ m = length (remove_dups (map fst (multi_items m)))
  /\ keys m ≡ₚ remove_dups (map fst (multi_items m)).
Proof.
  exact (multidict_len_counts_keys (K := nat) (V := nat)
           (of_items MultiDict [(1, 10); (2, 20); (1, 11)])
           (reachable_init [ArgItems [(1, 10); (2, 20); (1, 11)]] [] _ eq_refl)).
Defined.

Lemma multidict_pop_effect_witness :
  let m := of_items MultiDict [(1, 10); (2, 20); (1, 11)] in
  let m' := fst (pop m 1 None) in
  snd (pop m 1 None)
  = match last (getlist m 1) with
    | Some v => Some v
    | None => None
    end
  /\ __contains__ m' 1 = false
  /\ getlist m' 1 = []
  /\ (forall key', key' <> 1 ->
        getlist m' key' = getlist m key'
        /\ forall d, get m' key' d = get m key' d).
Proof.
  exact (multidict_pop_effect (K := nat) (V := nat)
           (of_items MultiDict [(1, 10); (2, 20); (1, 11)]) 1 None
           (reachable_init [ArgItems [(1, 10); (2, 20); (1, 11)]] [] _ eq_refl)).
Defined.

Lemma multidict_popitem_effect_witness :
  let m := of_items MultiDict [(1, 10); (2, 20); (1, 11)] in
  let m' := fst (popitem m) in
  last (getlist m 2) = Some 20
  /\ __contains__ m' 2 = false
  /\ getlist m' 2 = []
  /\ S (__len__ m') = __len__ m
  /\ (forall key', key' <> 2 ->
        getlist m' key' = getlist m key'
        /\ forall d, get m' key' d = get m key' d).
Proof.
  exact (multidict_popitem_effect (K := nat) (V := nat)
           (of_items MultiDict [(1, 10); (2, 20); (1, 11)])
           (reachable_init [ArgItems [(1, 10); (2, 20); (1, 11)]] [] _ eq_refl)).
Defined.

Lemma multidict_delitem_effect_witness :
  let m := of_items MultiDict [(1, 10); (2, 20); (1, 11)] in
  let m' := fst (__delitem__ m 3) in
  (__contains__ m 3 = false ->
     snd (__delitem__ m 3) = inl KeyError /\ m' = m)
  /\ (__contains__ m 3 = true ->
        snd (__delitem__ m 3) = inr tt
        /\ __contains__ m' 3 = false
        /\ getlist m' 3 = []
        /\ forall key', key' <> 3 ->
             getlist m' key' = getlist m key'
             /\ forall d, get m' key' d = get m key' d).
Proof.
  exact (multidict_delitem_effect (K := nat) (V := nat)
           (of_items MultiDict [(1, 10); (2, 20); (1, 11)]) 3
           (reachable_init [ArgItems [(1, 10); (2, 20); (1, 11)]] [] _ eq_refl)).
Defined.
End MultiDictMore.

(** ** The attribute namespace *)

Module StateFacts.
Import Py State DictFacts Examples.

Section state.
Context {V : Type}.
Variable class_attribute : str -> bool.

Local Abbreviation getattr := (State.getattr (V := V) class_attribute).

(** X20: for a name other than [_state] that the class does not
    define, an attribute that was set reads back, setting it leaves
    the other attributes alone, and after deleting it reading it
    raises AttributeError; on a new object reading it raises
    AttributeError, but deleting any missing attribute lets the
    KeyError of the underlying [dict] out and changes nothing.
    Assigning to [_state] or to a name of the class does not read
    back: the value goes into the [dict], and reading gives the
    [dict] itself or what the class has. *)
Theorem state_attributes (self : State.t V) (key : str) (value : V) :
  key <> "_state" ->
  class_attribute key = false ->
  getattr (__setattr__ self key value) key = inr (Stored value)
  /\ (forall key', key' <> key -> key' <> "_state" ->
        getattr (__setattr__ self key value) key' = getattr self key')
  /\ snd (__delattr__ (__setattr__ self key value) key) = inr tt
  /\ (exists message,
        getattr (fst (__delattr__ (__setattr__ self key value) key)) key
        = inl (AttributeError message))
  /\ (forall key', key' <> key -> key' <> "_state" ->
        getattr (fst (__delattr__ (__setattr__ self key value) key)) key'
        = getattr self key')
  /\ (exists message,
        getattr (State.__init__ (V := V) None) key = inl (AttributeError message))
  /\ (forall key',
        __delattr__ (State.__init__ (V := V) None) key'
        = (State.__init__ None, inl KeyError_))
  /\ (forall value',
        getattr (__setattr__ self "_state" value') "_state"
        = inr (StateDict (Dict.set (_state self) "_state" value')))
  /\ (forall key' value',
        key' <> "_state" -> class_attribute key' = true ->
        getattr (__setattr__ self key' value') key' = inr (ClassAttribute key')).
Proof.
  intros Hkey Hclass.
  assert (Hread : forall s k, k <> "_state" -> class_attribute k = false ->
            getattr s k = match __getattr__ s k with
                          | inr v => inr (Stored v)
                          | inl e => inl e
                          end).
  { intros s k Hk Hc. unfold State.getattr.
    apply String.eqb_neq in Hk. by rewrite Hk, Hc. }
  assert (Hother : forall s s' k, k <> "_state" ->
            __getattr__ s k = __getattr__ s' k -> getattr s k = getattr s' k).
  { intros s s' k Hk E. unfold State.getattr.
    apply String.eqb_neq in Hk. rewrite Hk, E. done. }
  split; [|split; [|split; [|split; [|split; [|split; [|split; [|split]]]]]]].
  - rewrite Hread by done. unfold __getattr__, __setattr__. cbn [_state].
    by rewrite get_set, decide_True.
  - intros key' Hne Hs. apply Hother; [done|].
    unfold __getattr__, __setattr__. cbn [_state].
    by rewrite get_set, decide_False.
  - unfold __delattr__, __setattr__. cbn [_state].
    by rewrite get_set, decide_True.
  - rewrite Hread by done. unfold __getattr__, __delattr__, __setattr__. cbn [_state].
    rewrite get_set, decide_True by done. cbn [fst _state].
    rewrite get_remove, decide_True by done. eauto.
  - intros key' Hne Hs. apply Hother; [done|].
    unfold __getattr__, __delattr__, __setattr__. cbn [_state].
    rewrite get_set, decide_True by done. cbn [fst _state].
    by rewrite get_remove, decide_False, get_set, decide_False.
  - rewrite Hread by done. cbn. eauto.
  - intros key'. reflexivity.
  - intros value'. reflexivity.
  - intros key' value' Hk Hc. unfold State.getattr.
    apply String.eqb_neq in Hk. by rewrite Hk, Hc.
Qed.
End state.

Lemma state_attributes_witness :
  getattr state_class_attribute
          (__setattr__ (State.__init__ None) "user" 7%nat) "user"
  = inr (Stored 7%nat).
Proof.
  exact (proj1 (state_attributes state_class_attribute (State.__init__ None)
                  "user" 7%nat ltac:(discriminate) eq_refl)).
Defined.
End StateFacts.

(** ** More on the gzip responder *)

Module GZipMore.
Import Py Types GZip HeadersFacts Examples.

Section responder.
Context {GzipFile : Type}.
Variable gzip_open : Z -> GzipFile * bytes.
Variable gzip_write : GzipFile -> bytes -> GzipFile * bytes.
Variable gzip_close : GzipFile -> bytes.

Local Abbreviation send_all := (GZip.send_all gzip_write gzip_close).
Local Abbreviation send_with_gzip := (GZip.send_with_gzip gzip_write gzip_close).
Local Abbreviation gzip_write_each := (GZip.gzip_write_each gzip_write).
Local Abbreviation body_of := (fun m : Message loc => default [] (msg_body m)).

(** A body message of a response that is already being streamed. *)
Lemma later_body (st : State GzipFile) (m : Message loc) :
  started (self st) = true ->
  gzip_closed (self st) = false ->
  gzip_buffer (self st) = [] ->
  msg_type m = Some "http.response.body" ->
  send_with_gzip m st
  = let '(f', out) := gzip_write (gzip_file (self st)) (body_of m) in
    let more := default false (msg_more_body m) in
    let chunk := out ++ (if more then [] else gzip_close f') in
    (mkState (mkResponder (minimum_size (self st)) (initial_message (self st))
                          true [] f' (negb more))
             (heap st)
             (wire st ++ [on_wire (heap st) (set_body m chunk)]), inr tt).
Proof.
  intros Hstarted Hclosed Hbuf Htype.
  destruct st as [[min im st0 buf f closed] h w].
  cbn [self heap wire started gzip_closed gzip_buffer gzip_file minimum_size
       initial_message] in *. subst st0 closed buf.
  unfold GZip.send_with_gzip. rewrite Htype.
  unfold mseq, mbind, gzip_file_write, gzip_file_close, read_self, GZip.send, mret,
    gzip_buffer_reset.
  cbn -[on_wire default].
  destruct (gzip_write f (default [] (msg_body m))) as [f' out].
  destruct (default false (msg_more_body m)); cbn -[on_wire default].
  - by rewrite app_nil_r.
  - done.
Qed.

Lemma stream_rest (mids : list (Message loc)) (final : Message loc) :
  forall (st : State GzipFile) f_end outs,
  started (self st) = true ->
  gzip_closed (self st) = false ->
  gzip_buffer (self st) = [] ->
  Forall (fun m => msg_type m = Some "http.response.body"
                   /\ default false (msg_more_body m) = true) mids ->
  msg_type final = Some "http.response.body" ->
  default false (msg_more_body final) = false ->
  gzip_write_each (gzip_file (self st)) (map body_of (mids ++ [final])) = (f_end, outs) ->
  exists st' chunks,
    send_all (mids ++ [final]) st = (st', inr tt)
    /\ heap st' = heap st
    /\ wire st' = wire st ++ zip_with (fun m chunk => on_wire (heap st) (set_body m chunk))
                                      (mids ++ [final]) chunks
    /\ length chunks = length (mids ++ [final])
    /\ concat chunks = concat outs ++ gzip_close f_end.
Proof.
  induction mids as [|m mids IH]; intros st f_end outs Hs Hc Hb Hmids Hft Hfm Hwr.
  - cbn [app map GZip.gzip_write_each] in Hwr.
    cbn [app GZip.send_all]. unfold mseq, mbind.
    rewrite later_body by done. rewrite Hfm.
    destruct (gzip_write (gzip_file (self st)) (body_of final)) as [f' out].
    injection Hwr as <- <-.
    eexists _, [out ++ gzip_close f']. cbn -[on_wire].
    split; [reflexivity|]. rewrite !app_nil_r. done.
  - apply Forall_cons in Hmids as [[Hmt Hmm] Hmids].
    cbn [app map GZip.gzip_write_each] in Hwr.
    cbn [app GZip.send_all]. unfold mseq at 1, mbind at 1.
    rewrite later_body by done. rewrite Hmm.
    destruct (gzip_write (gzip_file (self st)) (body_of m)) as [f' out].
    destruct (gzip_write_each f' (map body_of (mids ++ [final]))) as [f2 outs2] eqn:E2.
    injection Hwr as <- <-.
    edestruct (IH (mkState (mkResponder (minimum_size (self st)) (initial_message (self st))
                          true [] f' (negb true))
             (heap st)
             (wire st ++ [on_wire (heap st) (set_body m (out ++ []))]))
             f2 outs2) as (st' & chunks & Hrun & Hheap & Hwire & Hlen & Hcat);
      [done..|].
    exists st', ((out ++ []) :: chunks).
    split; [exact Hrun|]. split; [exact Hheap|].
    split; [|split].
    + rewrite Hwire. cbn [wire heap zip_with]. by rewrite <- app_assoc.
    + cbn [length]. by rewrite Hlen.
    + cbn [concat]. rewrite Hcat, app_nil_r, <- app_assoc. done.
Qed.

(** X21: a streamed response is compressed as one stream.  When the
    start message carries a header list and the first body message
    announces more, the start message goes out once, ahead of the
    bodies, with Content-Encoding gzip and with no line named
    content-length; every body message of the application goes out
    as one message that differs in its body only; and the bodies
    sent, one after the other, are what the one compressor wrote
    when it was opened, fed the application's bodies in order and
    closed at the last one.  When the start message carries no
    header list, the first body message fails with KeyError and
    nothing is sent. *)
Theorem gzip_stream_is_one_stream (minimum_size compresslevel : Z)
    (h : store) (w : list WireMessage) (start_msg first : Message loc)
    (mids : list (Message loc)) (final : Message loc) :
  let st := mkState (GZipResponder__init__ gzip_open minimum_size compresslevel) h w in
  let bodies := first :: mids ++ [final] in
  msg_type start_msg = Some "http.response.start" ->
  msg_type first = Some "http.response.body" ->
  default false (msg_more_body first) = true ->
  Forall (fun m => msg_type m = Some "http.response.body"
                   /\ default false (msg_more_body m) = true) mids ->
  msg_type final = Some "http.response.body" ->
  default false (msg_more_body final) = false ->
  match msg_headers start_msg with
  | Some l =>
      exists st' chunks,
        send_all (start_msg :: bodies) st = (st', inr tt)
        /\ wire st' = w ++ on_wire (heap st') start_msg
                        :: zip_with (fun m chunk => on_wire (heap st') (set_body m chunk))
                                    bodies chunks
        /\ length chunks = length bodies
        /\ concat chunks
           = snd (gzip_open compresslevel)
             ++ concat (snd (gzip_write_each (fst (gzip_open compresslevel))
                                             (map body_of bodies)))
             ++ gzip_close (fst (gzip_write_each (fst (gzip_open compresslevel))
                                                 (map body_of bodies)))
        /\ filter (fun kv => fst kv = encode_latin1 "content-length") (heap st' !!! l) = []
        /\ Headers.__contains__ (Headers.mk (heap st' !!! l)) "Content-Length" = false
        /\ Headers.get (Headers.mk (heap st' !!! l)) "Content-Encoding" None = Some "gzip"
  | None =>
      exists st',
        send_all (start_msg :: bodies) st = (st', inl KeyError)
        /\ wire st' = w
        /\ heap st' = h
  end.
Proof.
  intros st bodies Hstart Hft Hfm Hmids Hlt Hlm.
  subst st bodies. unfold GZipResponder__init__.
  destruct (gzip_open compresslevel) as [f0 out0]. cbn [fst snd].
  cbn [map GZip.gzip_write_each].
  remember (default [] (msg_body first)) as body eqn:Ebody.
  destruct (msg_headers start_msg) as [l|] eqn:Hl.
  2:{ eexists. split; [|split].
      - cbn [GZip.send_all].
        unfold mseq at 1 2, mbind at 1 2.
        unfold GZip.send_with_gzip at 1 2.
        rewrite Hstart, Hft.
        unfold mseq, mbind, gzip_file_write, gzip_file_close, read_self,
          initial_headers, set_started, set_initial_message, GZip.send, mret,
          gzip_buffer_reset.
        cbn -[on_wire Z.ltb default Z.of_nat length on_headers GZip.send_all].
        rewrite <- Ebody, Hfm, andb_false_r.
        cbn -[on_wire on_headers length default GZip.send_all].
        rewrite Hl. reflexivity.
      - reflexivity.
      - reflexivity. }
  destruct (gzip_write f0 body) as [f1 out1] eqn:Ewrite.
  destruct (gzip_write_each f1 (map body_of (mids ++ [final]))) as [f_end outs] eqn:Erest.
  cbn [fst snd].
  set (h' := <[l := filter (fun kv => fst kv <> encode_latin1 (lower "Content-Length"))
                 (MutableHeaders.set_line (encode_latin1 "vary")
                    (encode_latin1 (MutableHeaders.vary_after
                       (MutableHeaders.set_line (encode_latin1 (lower "Content-Encoding"))
                          (encode_latin1 "gzip") (h !!! l)) "Accept-Encoding"))
                    (MutableHeaders.set_line (encode_latin1 (lower "Content-Encoding"))
                          (encode_latin1 "gzip") (h !!! l)))]>
              (<[l := MutableHeaders.set_line (encode_latin1 "vary")
                    (encode_latin1 (MutableHeaders.vary_after
                       (MutableHeaders.set_line (encode_latin1 (lower "Content-Encoding"))
                          (encode_latin1 "gzip") (h !!! l)) "Accept-Encoding"))
                    (MutableHeaders.set_line (encode_latin1 (lower "Content-Encoding"))
                          (encode_latin1 "gzip") (h !!! l))]>
              (<[l := MutableHeaders.set_line (encode_latin1 (lower "Content-Encoding"))
                          (encode_latin1 "gzip") (h !!! l)]> h))).
  destruct (stream_rest mids final
              (mkState (mkResponder minimum_size start_msg true [] f1 false) h'
                       (w ++ [on_wire h' start_msg; on_wire h' (set_body first (out0 ++ out1))]))
              f_end outs) as (st' & chunks & Hrun & Hheap & Hwire & Hlen & Hcat);
    [done..|].
  cbn [self heap wire] in Hheap, Hwire.
  exists st', ((out0 ++ out1) :: chunks).
  split; [|split; [|split; [|split; [|split; [|split]]]]].
  - rewrite <- Hrun.
    cbn [GZip.send_all].
    unfold mseq at 1 2, mbind at 1 2.
    unfold GZip.send_with_gzip at 1 2.
    rewrite Hstart, Hft.
    unfold mseq, mbind, gzip_file_write, gzip_file_close, read_self,
      initial_headers, set_started, set_initial_message, GZip.send, mret,
      gzip_buffer_reset.
    cbn -[on_wire Z.ltb default Z.of_nat length on_headers GZip.send_all].
    rewrite <- Ebody, Hfm, andb_false_r.
    cbn -[on_wire on_headers length default GZip.send_all].
    rewrite Hl, GZipFacts.on_headers_setitem.
    cbn -[on_wire on_headers length default lower encode_latin1 GZip.send_all].
    rewrite GZipFacts.on_headers_add_vary.
    cbn -[on_wire on_headers length default lower encode_latin1 GZip.send_all].
    rewrite GZipFacts.on_headers_delitem.
    cbn -[on_wire on_headers length default lower encode_latin1 GZip.send_all].
    rewrite Ewrite.
    cbn -[on_wire on_headers length default lower encode_latin1 GZip.send_all].
    rewrite !lookup_total_insert_eq. fold h'. rewrite <- !app_assoc. reflexivity.
  - rewrite Hwire, Hheap, <- app_assoc. reflexivity.
  - cbn [length]. by rewrite Hlen.
  - cbn [concat]. rewrite Hcat, <- !app_assoc. done.
  - rewrite Hheap. subst h'. rewrite lookup_total_insert_eq.
    change (encode_latin1 (lower "Content-Length"))
      with (encode_latin1 "content-length").
    apply HeadersMore.filter_eq_filter_ne_same.
  - rewrite Hheap. subst h'. rewrite lookup_total_insert_eq.
    unfold Headers.__contains__. cbn [Headers._list].
    by rewrite GZipFacts.find_first_filter_same.
  - rewrite Hheap. subst h'. rewrite lookup_total_insert_eq.
    unfold Headers.get, Headers.__getitem__. cbn [Headers._list].
    rewrite find_first_filter_ne by (by vm_compute).
    change (encode_latin1 "vary") with (encode_latin1 (lower "vary")).
    rewrite !find_first_set_line.
    rewrite decide_False by (by vm_compute).
    rewrite decide_True by (by vm_compute).
    cbn [ret]. by rewrite decode_encode.
Qed.

(** X22: a body message that arrives before any start message.  A
    short final body lets the empty start message the responder was
    created with go out ahead of it; any other first body fails with
    the KeyError of the missing headers, and nothing is sent. *)
Theorem gzip_body_before_start (minimum_size compresslevel : Z)
    (h : store) (w : list WireMessage) (body_msg : Message loc) :
  let st := mkState (GZipResponder__init__ gzip_open minimum_size compresslevel) h w in
  let small := (Z.of_nat (length (body_of body_msg)) <? minimum_size)%Z in
  let final := negb (default false (msg_more_body body_msg)) in
  msg_type body_msg = Some "http.response.body" ->
  exists st',
    send_with_gzip body_msg st
    = (st', if small && final then inr tt else inl KeyError)
    /\ heap st' = h
    /\ started (self st') = true
    /\ wire st' = if small && final
                  then w ++ [on_wire h empty_message; on_wire h body_msg]
                  else w.
Proof.
  intros st small final Htype. subst st small final.
  unfold GZipResponder__init__.
  destruct (gzip_open compresslevel) as [f0 out0].
  unfold GZip.send_with_gzip. rewrite Htype.
  unfold mseq, mbind, gzip_file_write, gzip_file_close, read_self,
    initial_headers, set_started, set_initial_message, GZip.send, mret,
    gzip_buffer_reset.
  cbn -[on_wire Z.ltb default Z.of_nat length on_headers].
  destruct (Z.of_nat (length (default [] (msg_body body_msg))) <? minimum_size)%Z;
    destruct (default false (msg_more_body body_msg));
    cbn -[on_wire default on_headers length].
  - eexists. done.
  - eexists. split; [reflexivity|]. cbn [heap wire self started].
    by rewrite <- app_assoc.
  - eexists. done.
  - destruct (gzip_write f0 (default [] (msg_body body_msg))) as [f1 out1].
    cbn -[on_wire default on_headers length]. eexists. done.
Qed.

(** X23: when the middleware steps aside.  It hands the response to
    a responder only on an HTTP scope whose first line named
    accept-encoding, in lower case, has gzip somewhere in its value;
    on every other scope each message of the application reaches the
    transport as it is and in order, the header lists stay as they
    are and nothing is raised. *)
Theorem gzip_middleware_dispatch (minimum_size compresslevel : Z) (scope : Scope)
    (messages : list (Message loc)) (h : store) (w : list WireMessage) :
  GZipMiddleware__call__ gzip_open gzip_write gzip_close
    minimum_size compresslevel scope messages h w
  = if String.eqb (scope_type scope) "http"
       && match Headers.find_first (encode_latin1 "accept-encoding")
                                   (scope_headers scope) with
          | Some value => str_contains "gzip" (decode_latin1 value)
          | None => false
          end
    then
      let st' := fst (send_all messages
                        (mkState (GZipResponder__init__ gzip_open minimum_size compresslevel)
                                 h w)) in
      (heap st', wire st',
       snd (send_all messages
              (mkState (GZipResponder__init__ gzip_open minimum_size compresslevel) h w)))
    else (h, w ++ map (on_wire h) messages, inr tt).
Proof.
  unfold GZipMiddleware__call__, forward_all.
  destruct (String.eqb (scope_type scope) "http"); [|done].
  cbn [andb Headers.__init__ ret].
  unfold Headers.get, Headers.__getitem__. cbn [Headers._list].
  change (encode_latin1 (lower "Accept-Encoding")) with (encode_latin1 "accept-encoding").
  destruct (Headers.find_first (encode_latin1 "accept-encoding") (scope_headers scope))
    as [value|]; cbn [ret raise default from_option id].
  - destruct (str_contains "gzip" (decode_latin1 value)); [|done].
    by destruct (GZip.send_all _ _ _ _) as [st r].
  - done.
Qed.

End responder.

Lemma gzip_stream_is_one_stream_witness :
  exists st' chunks,
    send_all toy_write toy_close
      (example_start
       :: example_chunk "ab" true :: [example_chunk "cd" true] ++ [example_chunk "ef" false])
      (example_state 500) = (st', inr tt)
    /\ wire st' = [] ++ on_wire (heap st') example_start
                    :: zip_with (fun m chunk => on_wire (heap st') (set_body m chunk))
                         (example_chunk "ab" true
                          :: [example_chunk "cd" true] ++ [example_chunk "ef" false])
                         chunks
    /\ length chunks
       = length (example_chunk "ab" true
                 :: [example_chunk "cd" true] ++ [example_chunk "ef" false])
    /\ concat chunks
       = snd (toy_open 9)
         ++ concat (snd (gzip_write_each toy_write (fst (toy_open 9))
                           (map (fun m : Message loc => default [] (msg_body m))
                              (example_chunk "ab" true
                               :: [example_chunk "cd" true] ++ [example_chunk "ef" false]))))
         ++ toy_close (fst (gzip_write_each toy_write (fst (toy_open 9))
                           (map (fun m : Message loc => default [] (msg_body m))
                              (example_chunk "ab" true
                               :: [example_chunk "cd" true] ++ [example_chunk "ef" false]))))
    /\ filter (fun kv => fst kv = encode_latin1 "content-length") (heap st' !!! 1%nat) = []
    /\ Headers.__contains__ (Headers.mk (heap st' !!! 1%nat)) "Content-Length" = false
    /\ Headers.get (Headers.mk (heap st' !!! 1%nat)) "Content-Encoding" None = Some "gzip".
Proof.
  apply (gzip_stream_is_one_stream toy_open toy_write toy_close 500 9
           {[ 1%nat := [(encode_latin1 "content-length", encode_latin1 "10")] ]} []
           example_start (example_chunk "ab" true) [example_chunk "cd" true]
           (example_chunk "ef" false)).
  - reflexivity.
  - reflexivity.
  - reflexivity.
  - repeat constructor.
  - reflexivity.
  - reflexivity.
Defined.

Lemma gzip_body_before_start_witness :
  exists st',
    send_with_gzip toy_write toy_close (example_body "0123456789")
      (mkState (GZipResponder__init__ toy_open 4 9) ∅ [])
    = (st', inl KeyError)
    /\ heap st' = ∅
    /\ started (self st') = true
    /\ wire st' = [].
Proof.
  apply (gzip_body_before_start toy_open toy_write toy_close 4 9 ∅ []
           (example_body "0123456789")).
  reflexivity.
Defined.
End GZipMore.

(** ** More on the error boundary *)

Module ErrorsMore.
Import Py Types Errors Examples.

Section middleware.
Context {Exception : Type}.
Variable key_error : str -> Exception.
Variable init_headers : str -> bytes -> list raw_header.
Variable generate_html : Exception -> str.
Variable generate_plain_text : Exception -> str.

Local Abbreviation _send := (Errors._send key_error).
Local Abbreviation __call__ :=
  (Errors.__call__ key_error init_headers generate_html generate_plain_text).
Local Abbreviation debug_response :=
  (Errors.debug_response init_headers generate_html generate_plain_text).
Local Abbreviation typed := (fun m : Message => msg_type m <> None).

Lemma run_Send message (k : option Exception -> Coroutine Exception) t :
  run receive send (Send message k) t = run receive send (k None) (transmit message t).
Proof. reflexivity. Qed.

Lemma run_wire (c : Coroutine Exception) t :
  wire (fst (run receive send c t)) = wire t ++ sent_by c t.
Proof.
  unfold sent_by.
  assert (H : exists sent, wire (fst (run receive send c t)) = wire t ++ sent).
  { revert t. induction c as [| exc | message k IH | k IH]; intros t.
    - exists []. cbn [run fst]. by rewrite app_nil_r.
    - exists []. cbn [run fst]. by rewrite app_nil_r.
    - rewrite run_Send.
      destruct (IH None (transmit message t)) as [sent Hs]. exists (message :: sent).
      rewrite Hs. unfold transmit. cbn [wire]. by rewrite <- app_assoc.
    - cbn [run receive]. destruct (IH (inbound t (taken t))
                                  (mkTransport (inbound t) (S (taken t)) (wire t)))
        as [sent Hs].
      exists sent. by rewrite Hs. }
  destruct H as [sent ->]. by rewrite drop_app_length.
Qed.

Lemma sent_by_Send message (k : option Exception -> Coroutine Exception) t :
  sent_by (Send message k) t = message :: sent_by (k None) (transmit message t).
Proof.
  pose proof (run_wire (Send message k) t) as H1.
  pose proof (run_wire (k None) (transmit message t)) as H2.
  rewrite run_Send in H1.
  rewrite H2 in H1. unfold transmit in H1 at 1. cbn [wire] in H1.
  rewrite <- app_assoc in H1. apply app_inv_head in H1. done.
Qed.

Lemma sent_by_Receive (k : Message -> Coroutine Exception) t :
  sent_by (Receive k) t = sent_by (k (fst (receive t))) (snd (receive t)).
Proof.
  pose proof (run_wire (Receive k) t) as H1.
  pose proof (run_wire (k (fst (receive t))) (snd (receive t))) as H2.
  cbn [run receive fst snd] in *. rewrite H2 in H1. cbn [wire] in H1.
  apply app_inv_head in H1. done.
Qed.

(** While every message the application sends carries a type, the
    closures [_send] and [_receive] pass everything on: the wrapped
    run does to the transport what the direct run does and ends the
    same way, and [response_started] records whether a start message
    is among what the application sent. *)
Lemma run_wrapped (c : Coroutine Exception) t started :
  Forall typed (sent_by c t) ->
  run _receive _send c (t, started)
  = ((fst (run receive send c t),
      started || negb (Nat.eqb (count_start (sent_by c t)) 0)),
     snd (run receive send c t)).
Proof.
  revert t started.
  induction c as [| exc | message k IH | k IH]; intros t started Htyped.
  - cbn [run fst snd]. unfold sent_by. cbn [run fst].
    rewrite drop_all. by rewrite orb_false_r.
  - cbn [run fst snd]. unfold sent_by. cbn [run fst].
    rewrite drop_all. by rewrite orb_false_r.
  - rewrite sent_by_Send in *. apply Forall_cons in Htyped as [Hm Htyped].
    rewrite run_Send. cbn [run]. unfold Errors._send at 1.
    destruct (msg_type message) as [message_type|] eqn:Htype; [|done].
    unfold send at 1. cbn iota beta zeta.
    rewrite IH by done. rewrite ErrorsFacts.count_start_cons, Htype.
    destruct (decide (message_type = "http.response.start")) as [->|Hne].
    + rewrite decide_True by done. cbn. by rewrite orb_true_r.
    + rewrite decide_False by congruence. done.
  - rewrite sent_by_Receive in *. cbn [run]. unfold _receive at 1.
    cbn [receive fst snd] in *. by rewrite IH.
Qed.

Lemma run_wrapped_started (c : Coroutine Exception) t :
  Forall typed (sent_by c t) ->
  run _receive _send c (t, false)
  = ((fst (run receive send c t), negb (Nat.eqb (count_start (sent_by c t)) 0)),
     snd (run receive send c t)).
Proof. intros Htyped. by rewrite run_wrapped. Qed.

(** X24: the boundary is invisible while nothing fails.  On a scope
    that is not HTTP, and on an HTTP scope whose application
    returns, the call does to the transport exactly what the
    application alone does: the same messages taken and sent, the
    same return, nothing added. *)
Theorem errors_transparent_unless_raised
    (self : ServerErrorMiddleware Exception) (scope_ : Scope) (t : Transport) :
  scope_type scope_ <> "http"
  \/ (snd (run receive send (app self scope_) t) = Returned
      /\ Forall typed (sent_by (app self scope_) t)) ->
  __call__ self scope_ t = run receive send (app self scope_) t.
Proof.
  intros H. unfold Errors.__call__.
  destruct (decide (scope_type scope_ = "http")) as [Hhttp|Hne].
  - destruct H as [H|[Hret Htyped]]; [done|].
    rewrite bool_decide_eq_true_2 by done. cbn [negb].
    rewrite run_wrapped_started by done. rewrite Hret.
    destruct (run receive send (app self scope_) t) as [td o].
    cbn [fst snd] in *. by subst o.
  - by rewrite bool_decide_eq_false_2.
Qed.

(** X25: a response is never started twice and a failure is never
    swallowed.  When the application raises on an HTTP scope, the
    call takes from the transport what the application took, adds
    nothing to what the application sent if a start message is
    among it, adds at most the messages of one response (one start
    message, then its body messages) otherwise, and ends by
    raising. *)
Theorem errors_no_second_start
    (self : ServerErrorMiddleware Exception) (scope_ : Scope) (t : Transport)
    (exc : Exception) :
  scope_type scope_ = "http" ->
  snd (run receive send (app self scope_) t) = Raised exc ->
  Forall typed (sent_by (app self scope_) t) ->
  exists extra,
    wire (fst (__call__ self scope_ t))
    = wire t ++ sent_by (app self scope_) t ++ extra
    /\ taken (fst (__call__ self scope_ t))
       = taken (fst (run receive send (app self scope_) t))
    /\ (count_start (sent_by (app self scope_) t) <> 0%nat -> extra = [])
    /\ (extra = [] \/ exists response, extra = response_messages response)
    /\ (count_start (sent_by (app self scope_) t ++ extra)
        <= Nat.max 1 (count_start (sent_by (app self scope_) t)))%nat
    /\ exists exc', snd (__call__ self scope_ t) = Raised exc'.
Proof.
  intros Hhttp Hraise Htyped. unfold Errors.__call__.
  rewrite bool_decide_eq_true_2 by done. cbn [negb].
  rewrite run_wrapped_started by done. rewrite Hraise.
  set (td := fst (run receive send (app self scope_) t)).
  set (sent := sent_by (app self scope_) t).
  assert (Hw : wire td = wire t ++ sent) by apply run_wire.
  match goal with
  | |- context [match ?r with inl _ => _ | inr _ => _ end] => destruct r as [e'|response]
  end.
  - exists []. cbn [fst snd]. rewrite app_nil_r.
    split; [exact Hw|]. split; [done|]. split; [done|]. split; [by left|].
    split; [lia|by eexists].
  - destruct (Nat.eqb (count_start sent) 0) eqn:E; cbn [negb fst snd].
    + apply Nat.eqb_eq in E.
      exists (response_messages response).
      destruct (ErrorsFacts.Response__call___wire response td) as (-> & -> & _).
      rewrite Hw, <- !app_assoc.
      split; [done|]. split; [done|]. split; [done|]. split; [by right; eexists|].
      split; [|by eexists].
      rewrite ErrorsFacts.count_start_app, E, ErrorsFacts.count_start_response. lia.
    + exists []. rewrite app_nil_r.
      split; [exact Hw|]. split; [done|]. split; [done|]. split; [by left|].
      split; [lia|by eexists].
Qed.



End middleware.

Lemma errors_transparent_unless_raised_witness :
  let self := mkServerErrorMiddleware hello_app (Some broken_handler) false in
  let scope_ := mkScope "http" [] in
  __call__ example_key_error no_headers (fun e => e) (fun e => e) self scope_
           quiet_transport
  = run receive send (app self scope_) quiet_transport.
Proof.
  intros self scope_.
  apply (errors_transparent_unless_raised example_key_error no_headers
           (fun e => e) (fun e => e) self scope_ quiet_transport).
  right. split.
  - reflexivity.
  - vm_compute. repeat (apply Forall_cons_2; [discriminate|]). apply Forall_nil_2.
Defined.

Lemma errors_no_second_start_witness :
  let self := mkServerErrorMiddleware late_failing_app None false in
  let scope_ := mkScope "http" [] in
  exists extra,
    wire (fst (__call__ example_key_error no_headers (fun e => e) (fun e => e)
                        self scope_ quiet_transport))
    = wire quiet_transport ++ sent_by (app self scope_) quiet_transport ++ extra
    /\ taken (fst (__call__ example_key_error no_headers (fun e => e) (fun e => e)
                            self scope_ quiet_transport))
       = taken (fst (run receive send (app self scope_) quiet_transport))
    /\ (count_start (sent_by (app self scope_) quiet_transport) <> 0%nat -> extra = [])
    /\ (extra = [] \/ exists response, extra = response_messages response)
    /\ (count_start (sent_by (app self scope_) quiet_transport ++ extra)
        <= Nat.max 1 (count_start (sent_by (app self scope_) quiet_transport)))%nat
    /\ exists exc',
         snd (__call__ example_key_error no_headers (fun e => e) (fun e => e)
                       self scope_ quiet_transport)
         = Raised exc'.
Proof.
  intros self scope_.
  apply (errors_no_second_start example_key_error no_headers (fun e => e) (fun e => e)
           self scope_ quiet_transport "late").
  - reflexivity.
  - reflexivity.
  - vm_compute. repeat (apply Forall_cons_2; [discriminate|]). apply Forall_nil_2.
Defined.


End ErrorsMore.

(** ** More on the pipeline composer *)

Module ApplicationsMore.
Import Py Applications DictFacts ApplicationsFacts Examples.

Section applications.
Context {Handler Router UserValue : Type}.
Implicit Types (items : list (HandlerKey * Handler))
               (h : Heap Handler UserValue)
               (mws : list (Middleware Handler UserValue)).

(** The stack and the heap a build leaves. *)
Lemma build_eq (self : Starlette Router) h :
  Dict.wf (dicts h !!! exception_handlers self) ->
  exception_handlers self ∈ dom (dicts h) ->
  build_middleware_stack self h
  = (MiddlewareApp ServerErrorMiddleware
       (wrap_all (lists h !!! user_middleware self)
          (MiddlewareApp ExceptionMiddleware (RouterApp (router self))
             (ExceptionOptions (fresh (dom (dicts h))) (_debug self))))
       (ServerErrorOptions (server_error_handler (dicts h !!! exception_handlers self))
                           (_debug self)),
     mkHeap (<[fresh (dom (dicts h)) :=
                 other_handlers (dicts h !!! exception_handlers self)]> (dicts h))
            (lists h)).
Proof.
  intros Hwf Hdom.
  set (items := dicts h !!! exception_handlers self) in *.
  set (d := fresh (dom (dicts h))).
  assert (Hd : d ∉ dom (dicts h)) by apply is_fresh.
  assert (Hne : d <> exception_handlers self) by (intros ->; done).
  unfold build_middleware_stack, new_dict. fold d. cbn [dicts lists].
  rewrite lookup_total_insert_ne by done. fold items.
  destruct (partition_loop_spec items None d
              (mkHeap (<[d := []]> (dicts h)) (lists h))) as [E|[Hnil E]];
    rewrite E; cbn [dicts lists].
  - rewrite lookup_total_insert_eq, insert_insert_eq.
    rewrite update_wf by (by apply wf_filter).
    rewrite fold_left_rev_wrap, wrap_all_app, wrap_all_app. cbn [app].
    unfold wrap_all at 1 3. cbn [foldr cls options].
    by destruct (server_error_handler items).
  - rewrite Hnil.
    rewrite fold_left_rev_wrap, wrap_all_app, wrap_all_app.
    unfold wrap_all at 1 3. cbn [foldr cls options].
    by destruct (server_error_handler items).
Qed.

(** X28: a middleware added later wraps the ones added before.
    [add_middleware] puts the new descriptor at the front of the
    list object, so in the stack it builds the new middleware sits
    directly under the error boundary and around the chain of the
    middleware that were there; the handlers are as before. *)
Theorem add_middleware_outermost (self : Starlette Router) h
    (middleware_class : MiddlewareClass) (opts : Options Handler UserValue) :
  Dict.wf (dicts h !!! exception_handlers self) ->
  exception_handlers self ∈ dom (dicts h) ->
  let items := dicts h !!! exception_handlers self in
  let mws := lists h !!! user_middleware self in
  exists d h',
    add_middleware self middleware_class opts h
    = (MiddlewareApp ServerErrorMiddleware
         (MiddlewareApp middleware_class
            (wrap_all mws
               (MiddlewareApp ExceptionMiddleware (RouterApp (router self))
                  (ExceptionOptions d (_debug self))))
            opts)
         (ServerErrorOptions (server_error_handler items) (_debug self)),
       h')
    /\ (d ∉ dom (dicts h))
    /\ dicts h' !!! d = other_handlers items
    /\ dicts h' !!! exception_handlers self = items
    /\ lists h' !!! user_middleware self = mkMiddleware middleware_class opts :: mws
    /\ (forall l, l <> user_middleware self -> lists h' !! l = lists h !! l).
Proof.
  intros Hwf Hdom items mws. unfold add_middleware.
  rewrite build_eq by done. cbn [dicts lists].
  set (d := fresh (dom (dicts h))).
  assert (Hd : d ∉ dom (dicts h)) by apply is_fresh.
  assert (Hne : d <> exception_handlers self) by (intros ->; done).
  exists d. eexists. split; [|split; [done|split; [|split; [|split]]]].
  - rewrite lookup_total_insert_eq. reflexivity.
  - cbn [dicts]. by rewrite lookup_total_insert_eq.
  - cbn [dicts]. by rewrite lookup_total_insert_ne.
  - cbn [lists]. by rewrite lookup_total_insert_eq.
  - intros l Hl. cbn [lists]. by rewrite lookup_insert_ne.
Qed.

Lemma other_handlers_set_other items key value :
  is_server_error_key key = false ->
  other_handlers (Dict.set items key value) = Dict.set (other_handlers items) key value.
Proof.
  intros Hkey. induction items as [|[k v] items IH]; cbn [Dict.set].
  - rewrite other_handlers_cons, Hkey. done.
  - destruct (decide (k = key)) as [->|Hne].
    + rewrite !other_handlers_cons, Hkey. cbn [Dict.set]. by rewrite decide_True.
    + rewrite !other_handlers_cons, IH.
      destruct (is_server_error_key k); [done|].
      cbn [Dict.set]. by rewrite decide_False.
Qed.

Lemma server_error_handler_set_other items key value :
  is_server_error_key key = false ->
  server_error_handler (Dict.set items key value) = server_error_handler items.
Proof.
  intros Hkey. induction items as [|[k v] items IH]; cbn [Dict.set].
  - rewrite server_error_handler_cons, Hkey. done.
  - destruct (decide (k = key)) as [->|Hne].
    + by rewrite !server_error_handler_cons, Hkey.
    + by rewrite !server_error_handler_cons, IH.
Qed.

Lemma other_handlers_set_server items key value :
  is_server_error_key key = true ->
  other_handlers (Dict.set items key value) = other_handlers items.
Proof.
  intros Hkey. induction items as [|[k v] items IH]; cbn [Dict.set].
  - rewrite other_handlers_cons, Hkey. done.
  - destruct (decide (k = key)) as [->|Hne].
    + by rewrite !other_handlers_cons, Hkey.
    + by rewrite !other_handlers_cons, IH.
Qed.

Lemma server_error_handler_app items1 items2 :
  server_error_handler (items1 ++ items2)
  = match server_error_handler items2 with
    | Some v => Some v
    | None => server_error_handler items1
    end.
Proof.
  induction items1 as [|[k v] items1 IH]; cbn [app].
  - unfold server_error_handler at 3. cbn. by destruct (server_error_handler items2).
  - rewrite !server_error_handler_cons, IH.
    by destruct (server_error_handler items2).
Qed.

Lemma server_error_handler_Some items key :
  key ∈ Dict.keys items -> is_server_error_key key = true ->
  is_Some (server_error_handler items).
Proof.
  unfold Dict.keys. induction items as [|[k v] items IH]; cbn [map fst].
  - by intros ?%elem_of_nil.
  - rewrite server_error_handler_cons. intros [->|Hin]%elem_of_cons Hkey.
    + rewrite Hkey. by destruct (server_error_handler items).
    + destruct (IH Hin Hkey) as [x ->]. done.
Qed.

Lemma set_middle items1 key old value items2 :
  key ∉ Dict.keys items1 ->
  Dict.set (items1 ++ (key, old) :: items2) key value
  = items1 ++ (key, value) :: items2.
Proof.
  unfold Dict.keys. induction items1 as [|[k v] items1 IH]; cbn [app map fst Dict.set].
  - intros _. by rewrite decide_True.
  - rewrite not_elem_of_cons. intros [Hne Hin].
    rewrite decide_False by done. by rewrite IH.
Qed.

(** X29: where a registered handler ends up.  A handler for any
    other key is the one the exception middleware finds under that
    key, and changes nothing else.  A handler for 500 or for
    [Exception] never reaches the exception middleware; it becomes
    the handler of the error boundary when its key is new, but
    assigning to a key that is already there keeps the key's
    position, so when the other of the two keys was registered
    after it the boundary keeps the handler of that other key. *)
Theorem add_exception_handler_effect (self : Starlette Router) h
    (key : HandlerKey) (handler : Handler) :
  Dict.wf (dicts h !!! exception_handlers self) ->
  exception_handlers self ∈ dom (dicts h) ->
  let items := dicts h !!! exception_handlers self in
  exists d h' error_handler,
    add_exception_handler self key handler h
    = (MiddlewareApp ServerErrorMiddleware
         (wrap_all (lists h !!! user_middleware self)
            (MiddlewareApp ExceptionMiddleware (RouterApp (router self))
               (ExceptionOptions d (_debug self))))
         (ServerErrorOptions error_handler (_debug self)),
       h')
    /\ (d ∉ dom (dicts h))
    /\ dicts h' !!! exception_handlers self = Dict.set items key handler
    /\ (is_server_error_key key = false ->
        error_handler = server_error_handler items
        /\ Dict.get (dicts h' !!! d) key = Some handler
        /\ forall key', key' <> key ->
             Dict.get (dicts h' !!! d) key' = Dict.get (other_handlers items) key')
    /\ (is_server_error_key key = true ->
        dicts h' !!! d = other_handlers items
        /\ (key ∉ Dict.keys items -> error_handler = Some handler)
        /\ (forall before old after key',
              items = before ++ (key, old) :: after ->
              key' ∈ Dict.keys after -> is_server_error_key key' = true ->
              error_handler = server_error_handler items)).
Proof.
  intros Hwf Hdom items. unfold add_exception_handler, dict_setitem. cbv zeta.
  fold items.
  set (h1 := mkHeap (<[exception_handlers self := Dict.set items key handler]> (dicts h))
                    (lists h)).
  assert (Hitems1 : dicts h1 !!! exception_handlers self = Dict.set items key handler).
  { unfold h1. cbn [dicts]. by rewrite lookup_total_insert_eq. }
  assert (Hdom1 : dom (dicts h1) = dom (dicts h)).
  { unfold h1. cbn [dicts]. rewrite dom_insert_L.
    apply set_eq. intros x. rewrite elem_of_union, elem_of_singleton.
    split; [intros [->|]; done|by right]. }
  rewrite build_eq; [|rewrite Hitems1; by apply wf_set|rewrite Hdom1; done].
  rewrite Hitems1, Hdom1. unfold h1. cbn [lists dicts].
  set (d := fresh (dom (dicts h))).
  assert (Hd : d ∉ dom (dicts h)) by apply is_fresh.
  assert (Hne : d <> exception_handlers self) by (intros ->; done).
  exists d. eexists. eexists. split; [reflexivity|].
  cbn [dicts]. rewrite lookup_total_insert_eq.
  rewrite lookup_total_insert_ne by done. rewrite lookup_total_insert_eq.
  split; [done|]. split; [done|]. split.
  - intros Hkey. split; [by apply server_error_handler_set_other|].
    rewrite other_handlers_set_other by done. split.
    + rewrite get_set. by rewrite decide_True.
    + intros key' Hk. rewrite get_set. by rewrite decide_False.
  - intros Hkey. split; [by apply other_handlers_set_server|]. split.
    + intros Hnew. rewrite set_fresh by done.
      rewrite server_error_handler_app.
      unfold server_error_handler at 1. cbn [filter]. rewrite filter_cons, filter_nil.
      cbn [fst]. by rewrite decide_True.
    + intros before old after key' Hsplit Hin Hkey'.
      assert (Hfresh : key ∉ Dict.keys before).
      { assert (Hwf' : Dict.wf items) by exact Hwf.
        unfold Dict.wf, Dict.keys in *. rewrite Hsplit, map_app in Hwf'.
        apply NoDup_app in Hwf' as (_ & Hdisj & _).
        intros Hb. apply (Hdisj _ Hb). cbn. apply list_elem_of_here. }
      rewrite Hsplit, set_middle by done.
      rewrite !server_error_handler_app, !server_error_handler_cons.
      by destruct (server_error_handler_Some after key' Hin Hkey') as [x ->].
Qed.

(** X30: the debug flag reaches both ends of the stack.  Setting
    [debug] stores the flag and builds the stack again: the error
    boundary and the exception middleware both carry the new flag,
    the exception middleware gets a [dict] of its own that did not
    exist before, and the handlers and the user middleware of the
    application are as they were. *)
Theorem set_debug_rebuilds (self : Starlette Router) h (value : bool) :
  Dict.wf (dicts h !!! exception_handlers self) ->
  exception_handlers self ∈ dom (dicts h) ->
  let items := dicts h !!! exception_handlers self in
  let mws := lists h !!! user_middleware self in
  exists d h',
    set_debug self value h
    = (mkStarlette value (router self) (exception_handlers self) (user_middleware self),
       (MiddlewareApp ServerErrorMiddleware
          (wrap_all mws
             (MiddlewareApp ExceptionMiddleware (RouterApp (router self))
                (ExceptionOptions d value)))
          (ServerErrorOptions (server_error_handler items) value),
        h'))
    /\ (d ∉ dom (dicts h))
    /\ dicts h' !!! d = other_handlers items
    /\ lists h' = lists h
    /\ (forall l, l ∈ dom (dicts h) -> dicts h' !! l = dicts h !! l).
Proof.
  intros Hwf Hdom items mws. unfold set_debug.
  rewrite build_eq by done.
  cbn [_debug router exception_handlers user_middleware dicts lists].
  set (d := fresh (dom (dicts h))).
  assert (Hd : d ∉ dom (dicts h)) by apply is_fresh.
  exists d. eexists. split; [reflexivity|]. cbn [dicts lists].
  split; [done|]. split; [by rewrite lookup_total_insert_eq|]. split; [done|].
  intros l Hl. apply lookup_insert_ne. by intros ->.
Qed.

End applications.

Lemma add_middleware_outermost_witness :
  exists d h',
    add_middleware example_app (UserClass "SessionMiddleware") (UserOptions []) example_heap
    = (MiddlewareApp ServerErrorMiddleware
         (MiddlewareApp (UserClass "SessionMiddleware")
            (wrap_all (lists example_heap !!! 1%nat)
               (MiddlewareApp ExceptionMiddleware (RouterApp tt)
                  (ExceptionOptions d false)))
            (UserOptions []))
         (ServerErrorOptions (server_error_handler (dicts example_heap !!! 0%nat)) false),
       h')
    /\ (d ∉ dom (dicts example_heap))
    /\ dicts h' !!! d = other_handlers (dicts example_heap !!! 0%nat)
    /\ dicts h' !!! 0%nat = dicts example_heap !!! 0%nat
    /\ lists h' !!! 1%nat
       = mkMiddleware (UserClass "SessionMiddleware") (UserOptions [])
         :: lists example_heap !!! 1%nat
    /\ (forall l, l <> 1%nat -> lists h' !! l = lists example_heap !! l).
Proof.
  apply (add_middleware_outermost example_app example_heap
           (UserClass "SessionMiddleware") (UserOptions [])).
  - apply (bool_decide_unpack _). vm_compute. exact I.
  - apply elem_of_dom. eexists. apply lookup_singleton_eq.
Defined.

Lemma add_exception_handler_effect_witness :
  exists d h' error_handler,
    add_exception_handler example_app (StatusCode 500) "newer" example_heap
    = (MiddlewareApp ServerErrorMiddleware
         (wrap_all (lists example_heap !!! 1%nat)
            (MiddlewareApp ExceptionMiddleware (RouterApp tt)
               (ExceptionOptions d false)))
         (ServerErrorOptions error_handler false),
       h')
    /\ (d ∉ dom (dicts example_heap))
    /\ dicts h' !!! 0%nat = Dict.set (dicts example_heap !!! 0%nat) (StatusCode 500) "newer"
    /\ (is_server_error_key (StatusCode 500) = false ->
        error_handler = server_error_handler (dicts example_heap !!! 0%nat)
        /\ Dict.get (dicts h' !!! d) (StatusCode 500) = Some "newer"
        /\ forall key', key' <> StatusCode 500 ->
             Dict.get (dicts h' !!! d) key'
             = Dict.get (other_handlers (dicts example_heap !!! 0%nat)) key')
    /\ (is_server_error_key (StatusCode 500) = true ->
        dicts h' !!! d = other_handlers (dicts example_heap !!! 0%nat)
        /\ (StatusCode 500 ∉ Dict.keys (dicts example_heap !!! 0%nat) ->
            error_handler = Some "newer")
        /\ (forall before old after key',
              dicts example_heap !!! 0%nat = before ++ (StatusCode 500, old) :: after ->
              key' ∈ Dict.keys after -> is_server_error_key key' = true ->
              error_handler = server_error_handler (dicts example_heap !!! 0%nat))).
Proof.
  apply (add_exception_handler_effect example_app example_heap (StatusCode 500) "newer").
  - apply (bool_decide_unpack _). vm_compute. exact I.
  - apply elem_of_dom. eexists. apply lookup_singleton_eq.
Defined.

Lemma set_debug_rebuilds_witness :
  exists d h',
    set_debug example_app true example_heap
    = (mkStarlette true tt 0%nat 1%nat,
       (MiddlewareApp ServerErrorMiddleware
          (wrap_all (lists example_heap !!! 1%nat)
             (MiddlewareApp ExceptionMiddleware (RouterApp tt)
                (ExceptionOptions d true)))
          (ServerErrorOptions (server_error_handler (dicts example_heap !!! 0%nat)) true),
        h'))
    /\ (d ∉ dom (dicts example_heap))
    /\ dicts h' !!! d = other_handlers (dicts example_heap !!! 0%nat)
    /\ lists h' = lists example_heap
    /\ (forall l, l ∈ dom (dicts example_heap) ->
                  dicts h' !! l = dicts example_heap !! l).
Proof.
  apply (set_debug_rebuilds example_app example_heap true).
  - apply (bool_decide_unpack _). vm_compute. exact I.
  - apply elem_of_dom. eexists. apply lookup_singleton_eq.
Defined.

(** The example, computed: 500 is registered before [Exception], so
    a new handler for 500 takes the old one's place in the [dict]
    and the error boundary still gets the handler of [Exception]. *)
Lemma add_exception_handler_example :
  fst (add_exception_handler example_app (StatusCode 500) "newer" example_heap)
  = MiddlewareApp ServerErrorMiddleware
      (wrap_all (lists example_heap !!! 1%nat)
         (MiddlewareApp ExceptionMiddleware (RouterApp tt)
            (ExceptionOptions 1%nat false)))
      (ServerErrorOptions (Some "generic") false).
Proof. vm_compute. reflexivity. Qed.
End ApplicationsMore.
